(** * Contract analyzer: a shallow embedding of the analysis, chat-gate,
      retrieval and chunking code, and the properties proved about it.

    Source files embedded here:
    - [folder1/analysis.py]  ([ContractAnalysisChain.analyze_contract])
    - [app.py]               ([count_tokens] and the chat-input token gate)
    - [chains/rag.py]        ([ContractRAGChain.invoke])
    - [utils/vector_store.py] ([_chunk_documents])

    Conventions.  Python [str] values are Rocq strings, one character per
    code point (code points below 256).  Python [float] is IEEE binary64
    with round-to-nearest-even, modelled by [pyfloat] below.  Library
    calls that the repository does not implement (the chat model, the
    JSON decoder, the retriever, the tokenizer, the text splitter) are
    section variables.  A Python call that raises is an explicit
    [Raised] outcome. *)

From Stdlib Require Import ZArith Lia Bool List Ascii String Permutation.
From stdpp Require Import base option list strings gmap.

Local Open Scope Z_scope.
Set Warnings "-register-all".

(** String concatenation, Python's [+] on [str]. *)
Infix "+++" := String.append (at level 60, right associativity).
Arguments String.append !s1 s2 : simpl nomatch.

(** ** Python floats (IEEE 754 binary64, round to nearest, ties to even) *)

Module PyFloat.

(** A finite float is [m * 2^e], kept canonical: [m] odd, or [m = 0] and
    [e = 0].  The sign of zero is not represented; nothing in the embedded
    code observes it. *)
Inductive pyfloat : Type :=
  | FNaN
  | FInf (neg : bool)
  | FFin (m e : Z).

Fixpoint strip_zeros (p : positive) (e : Z) : positive * Z :=
  match p with
  | xO p' => strip_zeros p' (e + 1)
  | _ => (p, e)
  end.

Definition canon (m e : Z) : pyfloat :=
  match m with
  | Z0 => FFin 0 0
  | Zpos p => let '(p', e') := strip_zeros p e in FFin (Zpos p') e'
  | Zneg p => let '(p', e') := strip_zeros p e in FFin (Zneg p') e'
  end.

(** [below n d l] is [n / d < 2^l] for positive [n], [d]. *)
Definition below (n d l : Z) : bool :=
  if 0 <=? l then n <? d * 2 ^ l else n * 2 ^ (- l) <? d.

(** [lg2q n d] is the floor of the binary logarithm of [n / d]. *)
Definition lg2q (n d : Z) : Z :=
  let l := Z.log2 n - Z.log2 d in
  if below n d l then l - 1 else l.

(** Nearest integer to [N / D], ties to even ([0 <= N], [0 < D]). *)
Definition rne_div (N D : Z) : Z :=
  let q := N / D in
  let r := N mod D in
  if 2 * r <? D then q
  else if D <? 2 * r then q + 1
  else if Z.even q then q else q + 1.

(** [round_pos n d c] rounds the positive real [(n / d) * 2^c] to
    binary64: 53 significant bits, least exponent -1074, overflow to
    infinity. *)
Definition round_pos (n d c : Z) : pyfloat :=
  let e := Z.max (lg2q n d + c - 52) (-1074) in
  let s := c - e in
  let q := if 0 <=? s then rne_div (n * 2 ^ s) d
           else rne_div n (d * 2 ^ (- s)) in
  if (0 <=? e) && (2 ^ 1024 <=? q * 2 ^ e) then FInf false
  else canon q e.

Definition fneg (x : pyfloat) : pyfloat :=
  match x with
  | FNaN => FNaN
  | FInf s => FInf (negb s)
  | FFin m e => FFin (- m) e
  end.

(** [round_q n d c] rounds [(n / d) * 2^c] for any integer [n] and
    positive [d]. *)
Definition round_q (n d c : Z) : pyfloat :=
  match n with
  | Z0 => FFin 0 0
  | Zpos _ => round_pos n d c
  | Zneg _ => fneg (round_pos (- n) d c)
  end.

(** [float(n)] for a Python [int]: [OverflowError] when out of range. *)
Definition of_int (n : Z) : option pyfloat :=
  match round_q n 1 0 with
  | FFin m e => Some (FFin m e)
  | _ => None
  end.

Definition fsign (m : Z) : bool := m <? 0.

Definition fadd (x y : pyfloat) : pyfloat :=
  match x, y with
  | FNaN, _ | _, FNaN => FNaN
  | FInf s, FInf t => if Bool.eqb s t then FInf s else FNaN
  | FInf s, FFin _ _ => FInf s
  | FFin _ _, FInf t => FInf t
  | FFin m1 e1, FFin m2 e2 =>
      let e := Z.min e1 e2 in
      round_q (m1 * 2 ^ (e1 - e) + m2 * 2 ^ (e2 - e)) 1 e
  end.

Definition fmul (x y : pyfloat) : pyfloat :=
  match x, y with
  | FNaN, _ | _, FNaN => FNaN
  | FInf s, FInf t => FInf (xorb s t)
  | FInf s, FFin m _ | FFin m _, FInf s =>
      if m =? 0 then FNaN else FInf (xorb s (fsign m))
  | FFin m1 e1, FFin m2 e2 => round_q (m1 * m2) 1 (e1 + e2)
  end.

(** [x / y]; [None] is Python's [ZeroDivisionError]. *)
Definition fdiv (x y : pyfloat) : option pyfloat :=
  match x, y with
  | _, FFin 0 _ => None
  | FNaN, _ | _, FNaN => Some FNaN
  | FInf _, FInf _ => Some FNaN
  | FInf s, FFin m _ => Some (FInf (xorb s (fsign m)))
  | FFin _ _, FInf _ => Some (FFin 0 0)
  | FFin m1 e1, FFin m2 e2 =>
      Some (if fsign m2 then round_q (- m1) (- m2) (e1 - e2)
            else round_q m1 m2 (e1 - e2))
  end.

(** [x > 0]. *)
Definition fpos (x : pyfloat) : bool :=
  match x with
  | FNaN => false
  | FInf s => negb s
  | FFin m _ => 0 <? m
  end.

(** The built-in [round(x, 1)]: the exact value of [x] is rounded to the
    nearest multiple of one tenth (ties to even), and the decimal result
    is converted back to the nearest float. *)
Definition round1 (x : pyfloat) : pyfloat :=
  match x with
  | FFin m e =>
      let a := Z.abs m in
      let t := if 0 <=? e then a * 10 * 2 ^ e
               else rne_div (a * 10) (2 ^ (- e)) in
      if m <? 0 then fneg (round_q t 10 0) else round_q t 10 0
  | _ => x
  end.

(** The float written as the decimal [t / 10]. *)
Definition tenths (t : Z) : pyfloat := round_q t 10 0.

(** The float written as the half-integer [h / 2]. *)
Definition halves (h : Z) : pyfloat := canon h (-1).

End PyFloat.
Export PyFloat.

(** ** Python string operations used by the code *)

Module PyStr.

Definition chr (n : nat) : string := String (ascii_of_nat n) EmptyString.

(** Newline and the double quote, for the string constants of the code. *)
Definition nl : string := chr 10.
Definition dq : string := chr 34.

Definition len (s : string) : Z := Z.of_nat (String.length s).

(** [str.isspace] on one character: the white space that [str.strip]
    removes. *)
Definition is_space (c : ascii) : bool :=
  let n := nat_of_ascii c in
  ((9 <=? n) && (n <=? 13) || (28 <=? n) && (n <=? 32)
   || (n =? 133) || (n =? 160))%nat.

Fixpoint lstrip (s : string) : string :=
  match s with
  | String c s' => if is_space c then lstrip s' else s
  | EmptyString => EmptyString
  end.

Fixpoint rstrip (s : string) : string :=
  match s with
  | String c s' =>
      match rstrip s' with
      | EmptyString => if is_space c then EmptyString else String c EmptyString
      | r => String c r
      end
  | EmptyString => EmptyString
  end.

(** [s.strip()] *)
Definition strip (s : string) : string := rstrip (lstrip s).

(** [str.lower] on one character. *)
Definition lower_char (c : ascii) : ascii :=
  let n := nat_of_ascii c in
  if ((65 <=? n) && (n <=? 90)
      || (192 <=? n) && (n <=? 222) && negb (n =? 215))%nat
  then ascii_of_nat (n + 32) else c.

(** [s.lower()] *)
Fixpoint lower (s : string) : string :=
  match s with
  | String c s' => String (lower_char c) (lower s')
  | EmptyString => EmptyString
  end.

(** [s.startswith(p)] *)
Fixpoint startswith (p s : string) : bool :=
  match p, s with
  | EmptyString, _ => true
  | String a p', String b s' => if Ascii.eqb a b then startswith p' s' else false
  | String _ _, EmptyString => false
  end.

Fixpoint drop (n : nat) (s : string) : string :=
  match n, s with
  | O, _ => s
  | S n', String _ s' => drop n' s'
  | S _, EmptyString => EmptyString
  end.

Fixpoint take (n : nat) (s : string) : string :=
  match n, s with
  | S n', String c s' => String c (take n' s')
  | _, _ => EmptyString
  end.

(** [s.endswith(p)] *)
Definition endswith (p s : string) : bool :=
  (String.length p <=? String.length s)%nat
  && String.eqb (drop (String.length s - String.length p) s) p.

Fixpoint find_aux (sub s : string) (i : Z) : Z :=
  if startswith sub s then i
  else match s with
       | String _ s' => find_aux sub s' (i + 1)
       | EmptyString => -1
       end.

(** [s.find(sub)]: the least index of an occurrence, or -1. *)
Definition find (sub s : string) : Z := find_aux sub s 0.

Fixpoint rfind_aux (sub s : string) (i : Z) : Z :=
  match s with
  | String _ s' =>
      let r := rfind_aux sub s' (i + 1) in
      if r =? -1 then (if startswith sub s then i else -1) else r
  | EmptyString => if startswith sub s then i else -1
  end.

(** [s.rfind(sub)]: the greatest index of an occurrence, or -1. *)
Definition rfind (sub s : string) : Z := rfind_aux sub s 0.

(** A slice bound as Python normalises it: a negative index counts from
    the end, and the result is clamped to [0 .. len s]. *)
Definition clamp (s : string) (i : Z) : Z :=
  if i <? 0 then Z.max (i + len s) 0 else Z.min i (len s).

(** [s.rfind(sub, start)]: the greatest index of an occurrence that lies
    within [s[start:]], or -1. *)
Definition rfind_from (sub s : string) (start : Z) : Z :=
  if len s <? start then -1
  else let b := clamp s start in rfind_aux sub (drop (Z.to_nat b) s) b.

(** [s[start:stop]] *)
Definition slice (s : string) (start stop : Z) : string :=
  let a := clamp s start in
  let b := clamp s stop in
  take (Z.to_nat (b - a)) (drop (Z.to_nat a) s).

(** [sub in s] *)
Definition str_in (sub s : string) : bool := negb (find sub s =? -1).

(** [sep.join(l)] *)
Fixpoint join (sep : string) (l : list string) : string :=
  match l with
  | [] => EmptyString
  | [x] => x
  | x :: rest => x +++ sep +++ join sep rest
  end.

End PyStr.
Export PyStr.

(** ** Python values decoded from JSON, and raised exceptions *)

Module Json.

Inductive json : Type :=
  | JNull
  | JBool (b : bool)
  | JInt (n : Z)
  | JFloat (x : pyfloat)
  | JStr (s : string)
  | JArr (items : list json)
  | JObj (fields : list (string * json)).

(** A [dict] is its list of fields in insertion order, keys distinct. *)
Fixpoint dict_get (fields : list (string * json)) (key : string) : option json :=
  match fields with
  | [] => None
  | (k, v) :: rest => if String.eqb k key then Some v else dict_get rest key
  end.

(** [d[key] = v]: an existing key keeps its place, a new one is appended. *)
Fixpoint dict_set (fields : list (string * json)) (key : string) (v : json)
  : list (string * json) :=
  match fields with
  | [] => [(key, v)]
  | (k, x) :: rest =>
      if String.eqb k key then (k, v) :: rest
      else (k, x) :: dict_set rest key v
  end.

Inductive pyexn : Type :=
  | AttributeError
  | TypeError
  | OverflowError
  | ZeroDivisionError
  | CompletionError.

(** The result of a Python expression that may raise. *)
Inductive res (A : Type) : Type :=
  | Ok (a : A)
  | Err (e : pyexn).
Arguments Ok {A} a.
Arguments Err {A} e.

Definition bind {A B : Type} (x : res A) (k : A -> res B) : res B :=
  match x with
  | Ok a => k a
  | Err e => Err e
  end.

End Json.
Export Json.

Notation "'try' x ':=' e 'in' k" := (bind e (fun x => k))
  (at level 10, x name, e at level 100, k at level 200,
   format "'try'  x  ':='  e  'in' '//' k").

(** ** [folder1/analysis.py]: [ContractAnalysisChain.analyze_contract] *)

Module Analysis.

(** What a call of [analyze_contract] does: it returns a [dict], or raises
    [RuntimeError] chained from the given exception. *)
Inductive outcome : Type :=
  | Returned (result : json)
  | Raised (cause : pyexn).

(** Lines 38-46: the Markdown fence removal. *)
Definition strip_fences (response_text : string) : string :=
  if str_in "```json" response_text then
    let start := find "```json" response_text + 7 in
    let end_ := rfind "```" response_text in
    strip (slice response_text start end_)
  else if str_in "```" response_text then
    let start := find "```" response_text + 3 in
    let end_ := rfind "```" response_text in
    strip (slice response_text start end_)
  else response_text.

(** The text appended by the truncation fix (line 63). *)
Definition closing_fragment : string :=
  "," +++ nl +++ "  " +++ dq +++ "flags" +++ dq +++ ": []," +++ nl +++
  "  " +++ dq +++ "overall_risk_score" +++ dq +++ ": null" +++ nl +++ "}".

(** Lines 57-63: the fix of a truncated response. *)
Definition fix_truncated (response_text : string) : string :=
  if negb (endswith "}" response_text) then
    let last_complete_clause := rfind "    }" response_text in
    if negb (last_complete_clause =? -1) then
      let clauses_end := rfind_from "  ]" response_text last_complete_clause in
      if negb (clauses_end =? -1) then
        slice response_text 0 (clauses_end + 3) +++ closing_fragment
      else response_text
    else response_text
  else response_text.

(** Lines 50-55 and 112-117: the two canned results. *)
Definition empty_response_result : json :=
  JObj [("summary", JStr "Unable to analyze contract - empty response from model.");
        ("clauses", JArr []);
        ("flags", JArr [JStr "Empty response from LLM"]);
        ("overall_risk_score", JNull)].

Definition parse_error_result : json :=
  JObj [("summary", JStr "Error: Could not parse LLM response. The model may not have returned valid JSON.");
        ("clauses", JArr []);
        ("flags", JArr [JStr "JSON parse error - check if model supports structured output"]);
        ("overall_risk_score", JNull)].

(** Lines 69-80.  The weights are 3.0, 2.5, 2.0, 1.5 and 1.0. *)
Definition CLAUSE_WEIGHTS : list (string * pyfloat) :=
  [("liability", FFin 3 0);
   ("indemnity", FFin 3 0);
   ("intellectual property", FFin 3 0);
   ("termination", FFin 5 (-1));
   ("fees and payment terms", FFin 5 (-1));
   ("scope of services", FFin 1 1);
   ("confidentiality", FFin 3 (-1));
   ("amendments", FFin 1 0);
   ("force majeure", FFin 1 0);
   ("default", FFin 3 (-1))].

Fixpoint weights_get (table : list (string * pyfloat)) (key : string) : option pyfloat :=
  match table with
  | [] => None
  | (k, w) :: rest => if String.eqb k key then Some w else weights_get rest key
  end.

(** [x.get(key, default)]: [AttributeError] unless [x] is a [dict]. *)
Definition py_get (x : json) (key : string) (default : json) : res json :=
  match x with
  | JObj fields => Ok (from_option id default (dict_get fields key))
  | _ => Err AttributeError
  end.

(** [x.lower()]: [AttributeError] unless [x] is a [str]. *)
Definition py_lower (x : json) : res string :=
  match x with
  | JStr s => Ok (lower s)
  | _ => Err AttributeError
  end.

Fixpoint chars (s : string) : list json :=
  match s with
  | EmptyString => []
  | String c s' => JStr (String c EmptyString) :: chars s'
  end.

(** [for item in x]: the items of a list, the characters of a string, the
    keys of a dict; [TypeError] for any other value. *)
Definition py_iter (x : json) : res (list json) :=
  match x with
  | JArr items => Ok items
  | JStr s => Ok (chars s)
  | JObj fields => Ok (map (fun kv => JStr (fst kv)) fields)
  | _ => Err TypeError
  end.

(** Lines 93-96: the first key other than ["default"] that occurs in
    [name] gives the weight; [weight] is kept when there is none. *)
Fixpoint find_weight (items : list (string * pyfloat)) (name : string)
    (weight : pyfloat) : pyfloat :=
  match items with
  | [] => weight
  | (key, w) :: rest =>
      if negb (String.eqb key "default") && str_in key name then w
      else find_weight rest name weight
  end.

(** [isinstance(score, (int, float)) and score > 0]; a [bool] is an
    [int] in Python. *)
Definition positive_number (score : json) : bool :=
  match score with
  | JBool b => b
  | JInt n => 0 <? n
  | JFloat x => fpos x
  | _ => false
  end.

(** [score * weight] for a number [score]. *)
Definition times (score : json) (weight : pyfloat) : res pyfloat :=
  match score with
  | JBool b => Ok (fmul (FFin (if b then 1 else 0) 0) weight)
  | JInt n =>
      match of_int n with
      | Some x => Ok (fmul x weight)
      | None => Err OverflowError
      end
  | JFloat x => Ok (fmul x weight)
  | _ => Err TypeError
  end.

(** Lines 88-100: one turn of the loop over the clauses, on the pair
    [(total_weighted_score, total_weight)]. *)
Definition clause_step (acc : pyfloat * pyfloat) (clause : json)
  : res (pyfloat * pyfloat) :=
  try score := py_get clause "risk_score" (JInt 0) in
  try name_value := py_get clause "clause_name" (JStr "") in
  try name := py_lower name_value in
  let weight :=
    find_weight CLAUSE_WEIGHTS name
      (from_option id FNaN (weights_get CLAUSE_WEIGHTS "default")) in
  if positive_number score then
    try product := times score weight in
    Ok (fadd (fst acc) product, fadd (snd acc) weight)
  else Ok acc.

Fixpoint clause_loop (clauses : list json) (acc : pyfloat * pyfloat)
  : res (pyfloat * pyfloat) :=
  match clauses with
  | [] => Ok acc
  | clause :: rest =>
      try acc' := clause_step acc clause in clause_loop rest acc'
  end.

(** Lines 83-107: the weighted average written into the parsed result. *)
Definition aggregate (result : json) : res json :=
  try clauses_value := py_get result "clauses" (JArr []) in
  try clauses := py_iter clauses_value in
  try totals := clause_loop clauses (FFin 0 0, FFin 0 0) in
  let fields := match result with JObj fields => fields | _ => [] end in
  if fpos (snd totals) then
    match fdiv (fst totals) (snd totals) with
    | Some q => Ok (JObj (dict_set fields "overall_risk_score" (JFloat (round1 q))))
    | None => Err ZeroDivisionError
    end
  else Ok (JObj (dict_set fields "overall_risk_score" JNull)).

Section Chain.

(** [self.prompt.format(contract_text=...)], the chat model ([None]:
    the call raises) and [json.loads] ([None]: [JSONDecodeError]). *)
Variable format_prompt : string -> string.
Variable llm_invoke : string -> option string.
Variable json_loads : string -> option json.

(** Lines 48-119, from the sanitized text on.  The first component
    lists the texts handed to [json.loads]. *)
Definition analyze_text (response_text : string) : list string * outcome :=
  if String.eqb response_text "" then ([], Returned empty_response_result)
  else
    let response_text := fix_truncated response_text in
    match json_loads response_text with
    | None => ([response_text], Returned parse_error_result)
    | Some result =>
        ([response_text],
         match aggregate result with
         | Ok r => Returned r
         | Err e => Raised e
         end)
    end.

(** Lines 36-46: the text that reaches the empty check. *)
Definition sanitize (content : string) : string :=
  strip_fences (strip content).

Definition analyze_contract (contract_text : string) : list string * outcome :=
  match llm_invoke (format_prompt contract_text) with
  | None => ([], Raised CompletionError)
  | Some content => analyze_text (sanitize content)
  end.

End Chain.

End Analysis.

(** ** A decoder for the JSON texts that [json.loads] accepts

    The chain takes [json.loads] as a parameter.  This decoder follows
    the grammar of Python's [json] module (its literals [NaN] and
    [Infinity] included, strings over code points below 256) and is what
    the chain is run with on concrete responses. *)

Module Decoder.

Definition code (c : ascii) : N := N_of_ascii c.

Definition is_ws (c : ascii) : bool :=
  match code c with
  | 32%N | 9%N | 10%N | 13%N => true
  | _ => false
  end.

Fixpoint skip_ws (s : string) : string :=
  match s with
  | String c s' => if is_ws c then skip_ws s' else s
  | EmptyString => EmptyString
  end.

Definition digit (c : ascii) : option Z :=
  let n := code c in
  if ((48 <=? n) && (n <=? 57))%N then Some (Z.of_N n - 48) else None.

Definition hex_digit (c : ascii) : option N :=
  let n := code c in
  if ((48 <=? n) && (n <=? 57))%N then Some (n - 48)%N
  else if ((97 <=? n) && (n <=? 102))%N then Some (n - 87)%N
  else if ((65 <=? n) && (n <=? 70))%N then Some (n - 55)%N
  else None.

(** The digits at the head of [s]: their value continuing [acc], how many
    there are, and the rest of the text. *)
Fixpoint digits (s : string) (acc : Z) (count : Z) : Z * Z * string :=
  match s with
  | String c s' =>
      match digit c with
      | Some d => digits s' (acc * 10 + d) (count + 1)
      | None => (acc, count, s)
      end
  | EmptyString => (acc, count, s)
  end.

(** The decimal [mant * 10^ex] as a float. *)
Definition decimal (mant ex : Z) : pyfloat :=
  if 0 <=? ex then round_q (mant * 10 ^ ex) 1 0
  else round_q mant (10 ^ (- ex)) 0.

(** An optional exponent part [[eE][+-]?digits]. *)
Definition exponent (s : string) : option (Z * string) :=
  match s with
  | String c s1 =>
      if ((code c =? 101) || (code c =? 69))%N then
        let '(neg, s2) :=
          match s1 with
          | String "-" r => (true, r)
          | String "+" r => (false, r)
          | _ => (false, s1)
          end in
        let '(v, k, r) := digits s2 0 0 in
        if 0 <? k then Some (if neg then - v else v, r) else None
      else None
  | EmptyString => None
  end.

(** A number whose sign has been read. *)
Definition number (neg : bool) (s : string) : option (json * string) :=
  let '(ip, k, r) :=
    match s with
    | String "0" r => (0, 1, r)
    | _ => digits s 0 0
    end in
  if k =? 0 then None
  else
    let sgn := fun z : Z => if neg then - z else z in
    let '(mant, fk, r1, has_frac) :=
      match r with
      | String "." r' =>
          let '(v, fk, r'') := digits r' ip 0 in
          if 0 <? fk then (v, fk, r'', true) else (ip, 0, r, false)
      | _ => (ip, 0, r, false)
      end in
    match exponent r1 with
    | Some (ex, r2) => Some (JFloat (decimal (sgn mant) (ex - fk)), r2)
    | None =>
        if has_frac then Some (JFloat (decimal (sgn mant) (- fk)), r1)
        else Some (JInt (sgn ip), r1)
    end.

Definition hex4 (s : string) : option (N * string) :=
  match s with
  | String a (String b (String c (String d r))) =>
      match hex_digit a, hex_digit b, hex_digit c, hex_digit d with
      | Some x, Some y, Some z, Some w =>
          Some ((((x * 16 + y) * 16 + z) * 16 + w)%N, r)
      | _, _, _, _ => None
      end
  | _ => None
  end.

(** The body of a string, after its opening quote. *)
Fixpoint string_body (fuel : nat) (s : string) : option (string * string) :=
  match fuel, s with
  | S f, String c r =>
      let n := code c in
      if (n =? 34)%N then Some (EmptyString, r)
      else if (n <? 32)%N then None
      else if (n =? 92)%N then
        match r with
        | String e r' =>
            let put (x : nat) (rest : string) :=
              match string_body f rest with
              | Some (t, r'') => Some (String (ascii_of_nat x) t, r'')
              | None => None
              end in
            match code e with
            | 34%N => put 34%nat r'
            | 92%N => put 92%nat r'
            | 47%N => put 47%nat r'
            | 98%N => put 8%nat r'
            | 102%N => put 12%nat r'
            | 110%N => put 10%nat r'
            | 114%N => put 13%nat r'
            | 116%N => put 9%nat r'
            | 117%N =>
                match hex4 r' with
                | Some (u, r'') =>
                    if (u <? 256)%N then put (N.to_nat u) r'' else None
                | None => None
                end
            | _ => None
            end
        | EmptyString => None
        end
      else
        match string_body f r with
        | Some (t, r') => Some (String c t, r')
        | None => None
        end
  | _, _ => None
  end.

Definition literal (word : string) (v : json) (s : string)
  : option (json * string) :=
  if startswith word s then Some (v, drop (String.length word) s) else None.

Fixpoint value (fuel : nat) (s : string) : option (json * string) :=
  match fuel with
  | O => None
  | S f =>
      match skip_ws s with
      | String c r =>
          match code c with
          | 91%N =>
              match skip_ws r with
              | String "]" r' => Some (JArr [], r')
              | _ => elements f r []
              end
          | 123%N =>
              match skip_ws r with
              | String "}" r' => Some (JObj [], r')
              | _ => members f r []
              end
          | 34%N =>
              match string_body (String.length r) r with
              | Some (t, r') => Some (JStr t, r')
              | None => None
              end
          | 110%N => literal "null" JNull (String c r)
          | 116%N => literal "true" (JBool true) (String c r)
          | 102%N => literal "false" (JBool false) (String c r)
          | 78%N => literal "NaN" (JFloat FNaN) (String c r)
          | 73%N => literal "Infinity" (JFloat (FInf false)) (String c r)
          | 45%N =>
              match literal "Infinity" (JFloat (FInf true)) r with
              | Some x => Some x
              | None => number true r
              end
          | _ => number false (String c r)
          end
      | EmptyString => None
      end
  end
with elements (fuel : nat) (s : string) (acc : list json)
  : option (json * string) :=
  match fuel with
  | O => None
  | S f =>
      match value f s with
      | Some (v, r) =>
          match skip_ws r with
          | String "," r' => elements f r' (acc ++ [v])
          | String "]" r' => Some (JArr (acc ++ [v]), r')
          | _ => None
          end
      | None => None
      end
  end
with members (fuel : nat) (s : string) (acc : list (string * json))
  : option (json * string) :=
  match fuel with
  | O => None
  | S f =>
      match skip_ws s with
      | String c r =>
          if (code c =? 34)%N then
            match string_body (String.length r) r with
            | Some (key, r1) =>
                match skip_ws r1 with
                | String ":" r2 =>
                    match value f r2 with
                    | Some (v, r3) =>
                        match skip_ws r3 with
                        | String "," r4 => members f r4 (dict_set acc key v)
                        | String "}" r4 => Some (JObj (dict_set acc key v), r4)
                        | _ => None
                        end
                    | None => None
                    end
                | _ => None
                end
            | None => None
            end
          else None
      | EmptyString => None
      end
  end.

(** [json.loads(s)]: one value, with nothing but white space after it. *)
Definition json_loads (s : string) : option json :=
  match value (2 * String.length s + 2) s with
  | Some (v, r) =>
      match skip_ws r with
      | EmptyString => Some v
      | _ => None
      end
  | None => None
  end.

End Decoder.

(** ** [app.py]: [count_tokens] and the chat-input token gate *)

Module App.

Definition MAX_TOKENS : Z := 8192.
Definition WARN_THRESHOLD : Z := 5734.
Definition BUFFER_TOKENS : Z := 500.

Record message : Type := Message { role : string; content : string }.

(** What the page shows during one chat input. *)
Inductive shown : Type :=
  | StError (used max : Z)
  | StWarning (used max : Z)
  | StChatMessage (who text : string).

(** The session after one chat input: the history, what was shown, and
    the questions passed to the answerer. *)
Record chat_run : Type := ChatRun {
  messages : list message;
  display : list shown;
  asked : list string
}.

Section Chat.

(** [encoder.encode] and [rag_chain.invoke]. *)
Variable encode : string -> list Z.
Variable rag_invoke : string -> string.

(** Lines 24-28. *)
Fixpoint count_loop (msgs : list message) (total_tokens : Z) : Z :=
  match msgs with
  | [] => total_tokens
  | msg :: rest =>
      count_loop rest (total_tokens + Z.of_nat (length (encode (content msg))))
  end.

Definition count_tokens (msgs : list message) : Z := count_loop msgs 0.

(** Lines 134-135. *)
Definition total_used_tokens (history : list message) (prompt : string) : Z :=
  count_tokens (history ++ [Message "user" prompt]) + BUFFER_TOKENS.

(** Lines 132-156: the body run for a submitted prompt, on the history. *)
Definition chat_input (history : list message) (prompt : string) : chat_run :=
  let used := total_used_tokens history prompt in
  if used >? MAX_TOKENS then
    ChatRun history [StError used MAX_TOKENS] []
  else
    let warning :=
      if used >? WARN_THRESHOLD then [StWarning used MAX_TOKENS] else [] in
    let response := rag_invoke prompt in
    ChatRun (history ++ [Message "user" prompt] ++ [Message "assistant" response])
            (warning ++ [StChatMessage "user" prompt;
                         StChatMessage "assistant" response])
            [prompt].

End Chat.

(** The three outcomes of the gate, read off a run. *)
Definition blocked (history : list message) (r : chat_run) : Prop :=
  (exists used, display r = [StError used MAX_TOKENS])
  /\ messages r = history /\ asked r = [].

Definition permitted (history : list message) (prompt : string) (r : chat_run) : Prop :=
  exists response,
    messages r = history ++ [Message "user" prompt; Message "assistant" response]
    /\ asked r = [prompt].

Definition warned (r : chat_run) : Prop :=
  exists used, In (StWarning used MAX_TOKENS) (display r).

Definition silent (r : chat_run) : Prop :=
  forall used max, ~ In (StWarning used max) (display r)
                   /\ ~ In (StError used max) (display r).

End App.

(** ** [chains/rag.py]: [ContractRAGChain.invoke] *)

Module Rag.

Inductive meta : Type :=
  | MStr (s : string)
  | MInt (n : Z).

(** A LangChain [Document]. *)
Record document : Type := Document {
  page_content : string;
  metadata : gmap string meta
}.

Section Chain.

(** [self.retriever.invoke] and [self.llm.invoke(...).content]. *)
Variable retriever_invoke : string -> list document.
Variable llm_invoke : string -> string.

(** Line 32. *)
Definition rag_prompt (context question : string) : string :=
  "Based on this contract:" +++ nl +++ context +++ nl +++ nl +++
  "Question: " +++ question +++ nl +++ nl +++ "Answer:".

(** Lines 29-35. *)
Definition invoke (question : string) : string :=
  let docs := retriever_invoke question in
  let context := join nl (map page_content docs) in
  let prompt := rag_prompt context question in
  llm_invoke prompt.

End Chain.

End Rag.

(** ** [utils/vector_store.py]: [_chunk_documents] *)

Module VectorStore.
Import Rag.

Section Chunking.

(** [RecursiveCharacterTextSplitter(chunk_size, chunk_overlap, ...)
    .split_text]. *)
Variable split_text : Z -> Z -> string -> list string.

(** Lines 46-50: [doc.metadata.copy()] updated with the chunk's keys. *)
Definition chunk_metadata (doc_metadata : gmap string meta)
    (i : Z) (total : Z) (chunk : string) : gmap string meta :=
  <["chunk_size" := MInt (len chunk)]>
    (<["total_chunks" := MInt total]>
       (<["chunk_index" := MInt i]> doc_metadata)).

(** Lines 44-57: the loop over [enumerate(chunks)]. *)
Fixpoint chunk_loop (doc_metadata : gmap string meta) (total : Z)
    (chunks : list string) (i : Z) (chunked_docs : list document)
  : list document :=
  match chunks with
  | [] => chunked_docs
  | chunk :: rest =>
      chunk_loop doc_metadata total rest (i + 1)
        (chunked_docs ++
           [Document chunk (chunk_metadata doc_metadata i total chunk)])
  end.

(** Lines 39-57: the loop over [docs]. *)
Fixpoint docs_loop (chunk_size chunk_overlap : Z) (docs : list document)
    (chunked_docs : list document) : list document :=
  match docs with
  | [] => chunked_docs
  | doc :: rest =>
      let chunks := split_text chunk_size chunk_overlap (page_content doc) in
      docs_loop chunk_size chunk_overlap rest
        (chunk_loop (metadata doc) (Z.of_nat (length chunks)) chunks 0
           chunked_docs)
  end.

Definition _chunk_documents (docs : list document)
    (chunk_size chunk_overlap : Z) : list document :=
  docs_loop chunk_size chunk_overlap docs [].

End Chunking.

End VectorStore.

(** ** The weighted risk score as the specification words it *)

Module RiskSpec.
Import Analysis.

(** The priority-ordered table of substring keys and weights. *)
Definition weight_table : list (string * pyfloat) :=
  [("liability", FFin 3 0);
   ("indemnity", FFin 3 0);
   ("intellectual property", FFin 3 0);
   ("termination", FFin 5 (-1));
   ("fees and payment terms", FFin 5 (-1));
   ("scope of services", FFin 1 1);
   ("confidentiality", FFin 3 (-1));
   ("amendments", FFin 1 0);
   ("force majeure", FFin 1 0)].

(** The weight 1.5 of a name that no key matches. *)
Definition default_weight : pyfloat := FFin 3 (-1).

(** Case-insensitive substring match of a key against a clause name. *)
Definition matches (key name : string) : bool :=
  str_in (lower key) (lower name).

(** The weight of a clause name: the first matching row wins. *)
Definition clause_weight (name : string) : pyfloat :=
  match List.find (fun row => matches (fst row) name) weight_table with
  | Some row => snd row
  | None => default_weight
  end.

(** The name of a clause; the empty string when it has none. *)
Definition name_of (clause : json) : string :=
  match clause with
  | JObj fields =>
      match dict_get fields "clause_name" with
      | Some (JStr s) => s
      | _ => ""
      end
  | _ => ""
  end.

(** The score of a clause when it is a number above zero ([True] counts
    as the number 1 in Python). *)
Definition positive_score (clause : json) : option pyfloat :=
  match clause with
  | JObj fields =>
      match dict_get fields "risk_score" with
      | Some (JInt n) => if 0 <? n then of_int n else None
      | Some (JFloat x) => if fpos x then Some x else None
      | Some (JBool true) => Some (FFin 1 0)
      | _ => None
      end
  | _ => None
  end.

(** The qualifying clauses, each as its score and its weight. *)
Definition qualifying (clauses : list json) : list (pyfloat * pyfloat) :=
  omap (fun clause =>
          match positive_score clause with
          | Some s => Some (s, clause_weight (name_of clause))
          | None => None
          end) clauses.

Definition numerator (clauses : list json) : pyfloat :=
  fold_left fadd (map (fun sw => fmul (fst sw) (snd sw)) (qualifying clauses))
    (FFin 0 0).

Definition denominator (clauses : list json) : pyfloat :=
  fold_left fadd (map snd (qualifying clauses)) (FFin 0 0).

(** [round(numerator / denominator, 1)] when the denominator is above
    zero, and null otherwise. *)
Definition overall_risk_score (clauses : list json) : json :=
  if fpos (denominator clauses) then
    JFloat (round1 (from_option id FNaN
                      (fdiv (numerator clauses) (denominator clauses))))
  else JNull.

(** A clause of the shape the prompt asks for: an object whose name, when
    present, is a string and whose integer score fits a float. *)
Definition clause_ok (clause : json) : bool :=
  match clause with
  | JObj fields =>
      match dict_get fields "clause_name" with
      | None | Some (JStr _) => true
      | Some _ => false
      end
      && match dict_get fields "risk_score" with
         | Some (JInt n) => bool_decide (is_Some (of_int n))
         | _ => true
         end
  | _ => false
  end.

(** A clause with the two fields the aggregation reads. *)
Definition clause (name : string) (score : Z) : json :=
  JObj [("clause_name", JStr name); ("risk_score", JInt score)].

End RiskSpec.

(** ** Sample responses and sessions *)

Module Samples.

Definition quoted (s : string) : string := dq +++ s +++ dq.

(** A complete JSON response that is not fenced but mentions a fence
    marker inside its summary. *)
Definition unfenced_with_marker : string :=
  "{" +++ quoted "summary" +++ ": " +++ quoted "see ``` below" +++ "}".

(** A plain unfenced response. *)
Definition unfenced_plain : string :=
  "{" +++ quoted "summary" +++ ": " +++ quoted "ok" +++ ", "
  +++ quoted "clauses" +++ ": []}".


(** A tokenizer that gives every text [n] tokens. *)
Definition flat_encoder (n : Z) : string -> list Z :=
  fun _ => repeat 0 (Z.to_nat n).



(** The tokens of the contents of a list of messages, summed. *)
Definition content_tokens (encode : string -> list Z) (msgs : list App.message) : Z :=
  fold_right Z.add 0
    (map (fun m => Z.of_nat (length (encode (App.content m)))) msgs).

End Samples.

(** ** The chunk list as the specification words it *)

Module ChunkSpec.
Import Rag VectorStore.

(** The chunk documents of one source document, by position: the [i]-th
    chunk of the splitter's output with its three metadata entries. *)
Fixpoint chunks_from (doc_metadata : gmap string meta) (total : Z)
    (chunks : list string) (i : Z) : list document :=
  match chunks with
  | [] => []
  | chunk :: rest =>
      Document chunk (chunk_metadata doc_metadata i total chunk)
      :: chunks_from doc_metadata total rest (i + 1)
  end.

(** [group] is what one document [doc] contributes, given the splitter's
    output [chunks] for its text. *)
Definition group_of (doc : document) (chunks : list string) (group : list document) : Prop :=
  length group = length chunks
  /\ forall (i : nat) (chunk : string),
       chunks !! i = Some chunk ->
       exists cd,
         group !! i = Some cd
         /\ page_content cd = chunk
         /\ metadata cd !! "chunk_index" = Some (MInt (Z.of_nat i))
         /\ metadata cd !! "total_chunks" = Some (MInt (Z.of_nat (length chunks)))
         /\ metadata cd !! "chunk_size" = Some (MInt (len chunk))
         /\ (forall key, is_Some (metadata doc !! key) ->
                         is_Some (metadata cd !! key))
         /\ (forall key, key <> "chunk_index" -> key <> "total_chunks" ->
                         key <> "chunk_size" ->
                         metadata cd !! key = metadata doc !! key).

End ChunkSpec.

(** ** Integer bookkeeping for integer-scored clauses *)

Module ExactSpec.
Import RiskSpec.

(** Twice the weight of each row, as an integer. *)
Definition doubled_table : list (string * Z) :=
  [("liability", 6);
   ("indemnity", 6);
   ("intellectual property", 6);
   ("termination", 5);
   ("fees and payment terms", 5);
   ("scope of services", 4);
   ("confidentiality", 3);
   ("amendments", 2);
   ("force majeure", 2)].

Definition doubled_weight (name : string) : Z :=
  match List.find (fun row => matches (fst row) name) doubled_table with
  | Some row => snd row
  | None => 3
  end.

(** The score of a clause when it is an integer above zero, else 0. *)
Definition integer_score (clause : json) : Z :=
  match clause with
  | JObj fields =>
      match dict_get fields "risk_score" with
      | Some (JInt n) => Z.max n 0
      | Some (JBool true) => 1
      | _ => 0
      end
  | _ => 0
  end.

(** A well-shaped clause whose score is not a float. *)
Definition integer_scored (clause : json) : bool :=
  clause_ok clause
  && match clause with
     | JObj fields =>
         match dict_get fields "risk_score" with
         | Some (JFloat _) => false
         | _ => true
         end
     | _ => false
     end.

(** Twice the sum of score * weight over the clauses. *)
Definition doubled_total (clauses : list json) : Z :=
  fold_right Z.add 0
    (map (fun c => integer_score c * doubled_weight (name_of c)) clauses).

(** Twice the sum of the weights of the clauses with a score above zero. *)
Definition doubled_weight_total (clauses : list json) : Z :=
  fold_right Z.add 0
    (map (fun c => if 0 <? integer_score c then doubled_weight (name_of c) else 0)
       clauses).

(** A clause with a fractional score. *)
Definition scored (name : string) (score_tenths : Z) : json :=
  JObj [("clause_name", JStr name); ("risk_score", JFloat (tenths score_tenths))].

(** Three clauses with fractional scores, and the same with the last two
    exchanged. *)
Definition fractional_clauses : list json :=
  [scored "Scope of Services" 81; scored "Amendments" 57;
   scored "Force Majeure" 99].

Definition fractional_clauses_swapped : list json :=
  [scored "Scope of Services" 81; scored "Force Majeure" 99;
   scored "Amendments" 57].

(** Three clauses with integer scores, one of them very large, and the
    same in reverse order. *)
Definition large_clauses : list json :=
  [clause "Amendments" (10 ^ 16); clause "Amendments" 1; clause "Amendments" 1].

Definition large_clauses_reversed : list json :=
  [clause "Amendments" 1; clause "Amendments" 1; clause "Amendments" (10 ^ 16)].

End ExactSpec.

(** ** [folder3/file_handler.py]: text extraction *)

Module FileHandler.

(** What [PyPDF2] makes of a file: opening or reading it raises, or it has
    pages; [page.extract_text()] gives a text, [None], or raises. *)
Inductive page_read : Type :=
  | PageText (page_txt : option string)
  | PageRaises.

Inductive pdf_file : Type :=
  | PdfRaises
  | PdfPages (pages : list page_read).

(** What [python-docx] makes of a file: it raises, or the file has
    paragraphs with their texts. *)
Inductive docx_file : Type :=
  | DocxRaises
  | DocxParagraphs (texts : list string).

(** What [extract_text] sees of a path: whether it is a file, its final
    component ([Path.name]), and what the two readers make of it. *)
Record path : Type := Path {
  is_file : bool;
  name : string;
  as_pdf : pdf_file;
  as_docx : docx_file
}.

(** [bool(s.strip())] *)
Definition nonblank (s : string) : bool := negb (String.eqb (strip s) "").

(** Lines 22-26: the loop over the pages; an exception leaves the loop
    with the text read so far. *)
Fixpoint pdf_loop (pages : list page_read) (text : string) : string :=
  match pages with
  | [] => text
  | PageRaises :: _ => text
  | PageText None :: rest => pdf_loop rest text
  | PageText (Some page_txt) :: rest =>
      if negb (String.eqb page_txt "") && nonblank page_txt
      then pdf_loop rest (text +++ strip page_txt +++ nl)
      else pdf_loop rest text
  end.

(** Lines 16-31. *)
Definition _extract_pdf (f : pdf_file) : string :=
  match f with
  | PdfRaises => ""
  | PdfPages pages => pdf_loop pages ""
  end.

(** Lines 34-43. *)
Definition _extract_docx (f : docx_file) : string :=
  match f with
  | DocxRaises => ""
  | DocxParagraphs texts => join nl (List.filter nonblank texts)
  end.

(** [PurePath.suffix]: the text of the final component from its last dot
    on, when that dot is neither its first nor its last character. *)
Definition suffix (name : string) : string :=
  let i := rfind "." name in
  if (0 <? i) && (i <? len name - 1) then slice name i (len name) else "".

(** Lines 47-77. *)
Definition extract_text (p : path) : string :=
  if negb (is_file p) then ""
  else
    let sfx := lower (suffix (name p)) in
    if String.eqb sfx ".pdf" then _extract_pdf (as_pdf p)
    else if String.eqb sfx ".docx" then _extract_docx (as_docx p)
    else "".

End FileHandler.

(** ** [app.py]: the upload, the analysis batch and the result display *)

Module Upload.
Import FileHandler Rag Analysis.

(** An uploaded file: its name, and what the two readers make of its
    bytes once they are written to a temporary file. *)
Record uploaded_file : Type := UploadedFile {
  upload_name : string;
  upload_pdf : pdf_file;
  upload_docx : docx_file
}.

(** [s.split('.')[-1]]: the text after the last dot, or all of [s]. *)
Definition last_part (s : string) : string :=
  let i := rfind "." s in
  if i =? -1 then s else slice s (i + 1) (len s).

(** Line 53. *)
Definition file_extension (f : uploaded_file) : string :=
  lower (last_part (upload_name f)).

(** What one run of the upload block leaves behind. *)
Inductive batch_end : Type :=
  | BatchSuccess
  | BatchNoText
  | BatchRaised (cause : pyexn).

Record batch (V : Type) : Type := Batch {
  warnings : list string;
  vector_store : option V;
  analysis_results : option (list (string * json));
  ending : batch_end
}.
Arguments Batch {V} _ _ _ _.
Arguments warnings {V} _.
Arguments vector_store {V} _.
Arguments analysis_results {V} _.
Arguments ending {V} _.

Section Batch.

(** The stem that [tempfile] picks for a file, [create_vector_store] with
    the sidebar's chunk parameters, and [analyze_contract] of the chain. *)
Variable V : Type.
Variable tmp_stem : uploaded_file -> string.
Variable create_vector_store : list document -> V.
Variable analyze_contract : string -> outcome.

(** Lines 56-61: the temporary file, as [extract_text] sees it. *)
Definition tmp_path (f : uploaded_file) : path :=
  Path true (tmp_stem f +++ "." +++ file_extension f)
    (upload_pdf f) (upload_docx f).

(** Lines 51-69: the loop over the uploaded files, on [all_docs] and the
    names warned about. *)
Fixpoint extract_loop (files : list uploaded_file)
    (all_docs : list document) (warned : list string)
  : list document * list string :=
  match files with
  | [] => (all_docs, warned)
  | f :: rest =>
      let extracted_text := extract_text (tmp_path f) in
      if negb (String.eqb extracted_text "") then
        extract_loop rest
          (all_docs ++ [Document extracted_text {["source" := MStr (upload_name f)]}])
          warned
      else extract_loop rest all_docs (warned ++ [upload_name f])
  end.

(** [doc.metadata["source"]] of a document built by the loop. *)
Definition source_of (doc : document) : string :=
  match metadata doc !! "source" with
  | Some (MStr s) => s
  | _ => ""
  end.

(** Lines 88-91: the loop over [all_docs]; a raising analysis ends it. *)
Fixpoint analysis_loop (docs : list document) (results : list (string * json))
  : res (list (string * json)) :=
  match docs with
  | [] => Ok results
  | doc :: rest =>
      match analyze_contract (page_content doc) with
      | Returned result => analysis_loop rest (results ++ [(source_of doc, result)])
      | Raised e => Err e
      end
  end.

(** Lines 49-96, for a non-empty list of uploaded files. *)
Definition upload (files : list uploaded_file) : batch V :=
  let '(all_docs, warned) := extract_loop files [] [] in
  match all_docs with
  | [] => Batch warned None None BatchNoText
  | _ =>
      let store := create_vector_store all_docs in
      match analysis_loop all_docs [] with
      | Ok results => Batch warned (Some store) (Some results) BatchSuccess
      | Err e => Batch warned (Some store) None (BatchRaised e)
      end
  end.

End Batch.

(** Truth value of a decoded value, as [if x:] takes it. *)
Definition truthy (x : json) : bool :=
  match x with
  | JNull => false
  | JBool b => b
  | JInt n => negb (n =? 0)
  | JFloat (FFin m _) => negb (m =? 0)
  | JFloat _ => true
  | JStr s => negb (String.eqb s "")
  | JArr items => match items with [] => false | _ => true end
  | JObj fields => match fields with [] => false | _ => true end
  end.

(** [x >= n] for a float [x] and a small integer [n]. *)
Definition fge_int (x : pyfloat) (n : Z) : bool :=
  match x with
  | FNaN => false
  | FInf s => negb s
  | FFin m e => if 0 <=? e then n <=? m * 2 ^ e else n * 2 ^ (- e) <=? m
  end.

Inductive risk_colour : Type := Red | Yellow | Green.

(** Line 112. *)
Definition risk_color (risk_score : pyfloat) : risk_colour :=
  if fge_int risk_score 7 then Red
  else if fge_int risk_score 4 then Yellow
  else Green.

(** Lines 106-113: the metric shown above a result, if any. *)
Definition metric (result : json) : option (pyfloat * risk_colour) :=
  match result with
  | JObj fields =>
      match dict_get fields "overall_risk_score" with
      | Some (JFloat x) =>
          if truthy (JFloat x) then Some (x, risk_color x) else None
      | _ => None
      end
  | _ => None
  end.

End Upload.

(** ** [app.py]: a chat session, one chat input after another *)

Module Session.
Import App.

Section Chat.

Variable encode : string -> list Z.
Variable rag_invoke : string -> string.

(** [st.session_state.messages] after the prompts, submitted in order. *)
Fixpoint session_messages (history : list message) (prompts : list string)
  : list message :=
  match prompts with
  | [] => history
  | prompt :: rest =>
      session_messages (messages (chat_input encode rag_invoke history prompt)) rest
  end.

(** The questions passed to the answerer during the prompts. *)
Fixpoint session_asked (history : list message) (prompts : list string)
  : list string :=
  match prompts with
  | [] => []
  | prompt :: rest =>
      let run := chat_input encode rag_invoke history prompt in
      asked run ++ session_asked (messages run) rest
  end.

(** The exchange that one answered question adds to the history. *)
Definition exchange (prompt : string) : list message :=
  [Message "user" prompt; Message "assistant" (rag_invoke prompt)].

End Chat.

End Session.

(** ** Auxiliary notions for the statements below *)

Module Notions.
Import Analysis.

(** The character [c] does not occur in [s]. *)
Fixpoint lacks (c : ascii) (s : string) : bool :=
  match s with
  | EmptyString => true
  | String a s' => negb (Ascii.eqb a c) && lacks c s'
  end.

(** The backtick, of which fence markers are made. *)
Definition tick : ascii := "`"%char.

(** A clause on which the loop raises [AttributeError]: not an object,
    or an object whose name is present and not a string. *)
Definition malformed (clause : json) : bool :=
  match clause with
  | JObj fields =>
      match dict_get fields "clause_name" with
      | None | Some (JStr _) => false
      | Some _ => true
      end
  | _ => true
  end.

(** The colour that the decimal thresholds 7.0 and 4.0 give to a score
    of [t] tenths. *)
Definition colour_of_tenths (t : Z) : Upload.risk_colour :=
  if 70 <=? t then Upload.Red
  else if 40 <=? t then Upload.Yellow
  else Upload.Green.

Definition colour_eqb (a b : Upload.risk_colour) : bool :=
  match a, b with
  | Upload.Red, Upload.Red
  | Upload.Yellow, Upload.Yellow
  | Upload.Green, Upload.Green => true
  | _, _ => false
  end.

(** A response whose clause list holds a null. *)
Definition response_with_null_clause : string :=
  "{" +++ Samples.quoted "clauses" +++ ": [null]}".

(** An upload named in capitals, with one page of text. *)
Definition sample_upload : Upload.uploaded_file :=
  Upload.UploadedFile "Contract.PDF"
    (FileHandler.PdfPages [FileHandler.PageText (Some " Fees are due. ")])
    FileHandler.DocxRaises.

End Notions.

(** * Properties *)

(** ** The weighted aggregation *)

Module AggregationFacts.
Import Analysis RiskSpec.

Lemma dict_get_set_same (fields : list (string * json)) (key : string) (v : json) :
  dict_get (dict_set fields key v) key = Some v.
Proof.
  induction fields as [|[k x] rest IH]; simpl.
  - now rewrite String.eqb_refl.
  - destruct (String.eqb k key) eqn:E; simpl; rewrite E; auto.
Qed.

Lemma dict_get_set_other (fields : list (string * json)) (key key' : string) (v : json) :
  key' <> key -> dict_get (dict_set fields key v) key' = dict_get fields key'.
Proof.
  intros Hne. induction fields as [|[k x] rest IH]; simpl.
  - destruct (String.eqb key key') eqn:E; auto.
    apply String.eqb_eq in E. congruence.
  - destruct (String.eqb k key) eqn:E; simpl.
    + apply String.eqb_eq in E. subst k.
      destruct (String.eqb key key') eqn:E'; auto.
      apply String.eqb_eq in E'. congruence.
    + destruct (String.eqb k key'); auto.
Qed.

(** The loop with [break] over a table that ends in the ["default"] row
    is the first-match lookup over the rows before it. *)
Lemma find_weight_first_match (rows : list (string * pyfloat)) (d : pyfloat) (name : string) :
  Forall (fun row => fst row <> "default" /\ lower (fst row) = fst row) rows ->
  find_weight (rows ++ [("default", d)]) (lower name) d =
  match List.find (fun row => matches (fst row) name) rows with
  | Some row => snd row
  | None => d
  end.
Proof.
  induction 1 as [|[k w] rest [Hk Hl] _ IH]; simpl.
  - reflexivity.
  - simpl in Hk, Hl. unfold matches at 1. simpl fst. rewrite Hl.
    destruct (String.eqb k "default") eqn:E.
    + apply String.eqb_eq in E. contradiction.
    + simpl. destruct (str_in k (lower name)); auto.
Qed.

Lemma table_rows_ok :
  Forall (fun row : string * pyfloat =>
            fst row <> "default" /\ lower (fst row) = fst row) weight_table.
Proof.
  unfold weight_table.
  repeat (constructor; [split; [discriminate | reflexivity]|]).
  constructor.
Qed.

Lemma code_weight_is_clause_weight (name : string) :
  find_weight CLAUSE_WEIGHTS (lower name)
    (from_option id FNaN (weights_get CLAUSE_WEIGHTS "default"))
  = clause_weight name.
Proof.
  change (from_option id FNaN (weights_get CLAUSE_WEIGHTS "default"))
    with default_weight.
  change CLAUSE_WEIGHTS with (weight_table ++ [("default", default_weight)]).
  unfold clause_weight.
  apply find_weight_first_match, table_rows_ok.
Qed.

(** One turn of the loop on a well-shaped clause. *)
Lemma clause_step_ok (acc : pyfloat * pyfloat) (c : json) :
  clause_ok c = true ->
  clause_step acc c =
  Ok match positive_score c with
     | Some s => (fadd (fst acc) (fmul s (clause_weight (name_of c))),
                  fadd (snd acc) (clause_weight (name_of c)))
     | None => acc
     end.
Proof.
  destruct c as [| | | | |items|fields]; try discriminate.
  unfold clause_ok, clause_step, positive_score, name_of.
  cbn [py_get bind]. intros Hok.
  apply andb_true_iff in Hok as [Hname Hscore].
  assert (Hw : forall s, dict_get fields "clause_name" = s ->
            match s with None | Some (JStr _) => true | Some _ => false end = true ->
            py_lower (from_option id (JStr "") s)
            = Ok (lower match s with Some (JStr t) => t | _ => "" end)).
  { intros [[| | | |t| |]|] _ H; try discriminate; reflexivity. }
  rewrite (Hw _ eq_refl Hname). cbn [bind].
  rewrite code_weight_is_clause_weight.
  generalize (clause_weight
                match dict_get fields "clause_name" with
                | Some (JStr t) => t
                | _ => ""
                end) as w.
  intros w.
  destruct (dict_get fields "risk_score") as [[|b|n|x|t|l|o]|];
    cbn [from_option id positive_number bind]; try reflexivity.
  - destruct b; reflexivity.
  - destruct (0 <? n); [|reflexivity].
    apply bool_decide_eq_true in Hscore as [y Hy].
    unfold times. rewrite Hy. reflexivity.
  - destruct (fpos x); reflexivity.
Qed.

Lemma clause_loop_ok (clauses : list json) (acc : pyfloat * pyfloat) :
  forallb clause_ok clauses = true ->
  clause_loop clauses acc =
  Ok (fold_left fadd (map (fun sw => fmul (fst sw) (snd sw)) (qualifying clauses)) (fst acc),
      fold_left fadd (map snd (qualifying clauses)) (snd acc)).
Proof.
  revert acc. induction clauses as [|c rest IH]; intros acc Hall; simpl.
  - now destruct acc.
  - simpl in Hall. apply andb_true_iff in Hall as [Hc Hrest].
    rewrite (clause_step_ok _ _ Hc). simpl.
    rewrite (IH _ Hrest). unfold qualifying. simpl.
    destruct (positive_score c); reflexivity.
Qed.

Lemma fdiv_positive_denominator (x y : pyfloat) :
  fpos y = true -> fdiv x y = Some (from_option id FNaN (fdiv x y)).
Proof.
  destruct y as [|s|m e]; simpl; intros H.
  - discriminate.
  - destruct x; reflexivity.
  - destruct m; try discriminate; destruct x; reflexivity.
Qed.

(** The aggregation on a result whose clauses are well shaped. *)
Lemma aggregate_ok (fields : list (string * json)) (clauses : list json) :
  from_option id (JArr []) (dict_get fields "clauses") = JArr clauses ->
  forallb clause_ok clauses = true ->
  aggregate (JObj fields)
  = Ok (JObj (dict_set fields "overall_risk_score" (overall_risk_score clauses))).
Proof.
  intros Hget Hok.
  unfold aggregate. cbn [py_get bind]. rewrite Hget.
  cbn [py_iter bind].
  rewrite (clause_loop_ok _ _ Hok). cbn [bind fst snd].
  fold (numerator clauses). fold (denominator clauses).
  unfold overall_risk_score.
  destruct (fpos (denominator clauses)) eqn:Hpos; [|reflexivity].
  rewrite (fdiv_positive_denominator _ _ Hpos). reflexivity.
Qed.

End AggregationFacts.

Module Aggregation.
Import Analysis RiskSpec AggregationFacts.

(** C1.  On a parsed result whose ["clauses"] (none when the key is
    absent) are well-shaped clause objects, the aggregation loop returns
    the result with
    ["overall_risk_score"] set to the specified weighted score: each clause
    whose score is a number above zero gets the weight of the first table
    key that occurs in its lower-cased name (1.5 when none does), the
    products score * weight and the weights are accumulated in clause
    order, and the field becomes [round(numerator / denominator, 1)] when
    the denominator is above zero and null otherwise.  The value the model
    put in that field is overwritten and every other field is kept.  The
    two clauses Liability Cap (8) and Force Majeure (2) give 6.5, and
    "Miscellaneous Terms" has weight 1.5. *)
Theorem weighted_risk_aggregation (fields : list (string * json)) (clauses : list json) :
  from_option id (JArr []) (dict_get fields "clauses") = JArr clauses ->
  forallb clause_ok clauses = true ->
  (exists fields',
      aggregate (JObj fields) = Ok (JObj fields')
      /\ fields' = dict_set fields "overall_risk_score" (overall_risk_score clauses)
      /\ dict_get fields' "overall_risk_score" = Some (overall_risk_score clauses)
      /\ forall key, key <> "overall_risk_score" ->
                     dict_get fields' key = dict_get fields key)
  /\ overall_risk_score [clause "Liability Cap" 8; clause "Force Majeure" 2]
     = JFloat (tenths 65)
  /\ clause_weight "Liability Cap" = FFin 3 0
  /\ clause_weight "Force Majeure" = FFin 1 0
  /\ clause_weight "Miscellaneous Terms" = halves 3.
Proof.
  intros Hget Hok. split; [|repeat split; vm_compute; reflexivity].
  exists (dict_set fields "overall_risk_score" (overall_risk_score clauses)).
  split; [|split; [reflexivity|split]].
  - now apply aggregate_ok.
  - apply dict_get_set_same.
  - intros key Hne. now apply dict_get_set_other.
Qed.

(** The theorem at the two-clause example, with a model-supplied score of
    3 in the field that is recomputed. *)
Lemma weighted_risk_aggregation_witness :
  exists fields',
    aggregate (JObj [("summary", JStr "s");
                     ("clauses", JArr [clause "Liability Cap" 8;
                                       clause "Force Majeure" 2]);
                     ("flags", JArr []);
                     ("overall_risk_score", JInt 3)]) = Ok (JObj fields')
    /\ dict_get fields' "overall_risk_score" = Some (JFloat (FFin 13 (-1))).
Proof.
  destruct (weighted_risk_aggregation
              [("summary", JStr "s");
               ("clauses", JArr [clause "Liability Cap" 8;
                                 clause "Force Majeure" 2]);
               ("flags", JArr []);
               ("overall_risk_score", JInt 3)]
              [clause "Liability Cap" 8; clause "Force Majeure" 2]
              eq_refl eq_refl) as [[fields' [H1 [_ [H2 _]]]] _].
  exists fields'. split; [exact H1 | exact H2].
Defined.

End Aggregation.

(** ** Facts about the string operations *)

Module StrFacts.

Lemma append_assoc (a b c : string) : (a +++ b) +++ c = a +++ (b +++ c).
Proof. induction a; simpl; congruence. Qed.


Lemma startswith_trans (p q s : string) :
  startswith p q = true -> startswith q s = true -> startswith p s = true.
Proof.
  revert q s. induction p as [|c p IH]; intros q s Hpq Hqs; simpl in *.
  - reflexivity.
  - destruct q as [|b q]; [discriminate|].
    destruct (Ascii.eqb c b) eqn:E; [|discriminate].
    destruct s as [|a s]; simpl in Hqs; [discriminate|].
    destruct (Ascii.eqb b a) eqn:E'; [|discriminate].
    apply Ascii.eqb_eq in E, E'. subst. rewrite Ascii.eqb_refl. eauto.
Qed.

(** A longer marker is absent wherever a prefix of it is absent. *)
Lemma find_aux_absent_longer (short long s : string) (i : Z) :
  startswith short long = true -> 0 <= i ->
  find_aux short s i = -1 -> find_aux long s i = -1.
Proof.
  intros Hpre. revert i. induction s as [|c s IH]; intros i Hi; simpl.
  - destruct (startswith short "") eqn:E; [lia|].
    destruct (startswith long "") eqn:E'; [|reflexivity].
    now rewrite (startswith_trans _ _ _ Hpre E') in E.
  - destruct (startswith short (String c s)) eqn:E; [lia|].
    destruct (startswith long (String c s)) eqn:E'.
    + now rewrite (startswith_trans _ _ _ Hpre E') in E.
    + apply IH. lia.
Qed.

Lemma str_in_absent_longer (short long s : string) :
  startswith short long = true ->
  str_in short s = false -> str_in long s = false.
Proof.
  unfold str_in, find. intros Hpre H.
  apply negb_false_iff, Z.eqb_eq in H.
  apply negb_false_iff, Z.eqb_eq.
  now apply (find_aux_absent_longer short long).
Qed.





Lemma length_append (a b : string) :
  String.length (a +++ b) = (String.length a + String.length b)%nat.
Proof. induction a; simpl; auto. Qed.


Lemma take_app_plus (a b : string) (n : nat) :
  take (String.length a + n) (a +++ b) = a +++ take n b.
Proof. induction a; simpl; congruence. Qed.


Lemma endswith_app (p s : string) : endswith s (p +++ s) = true.
Proof.
  unfold endswith.
  assert (Hlen : String.length (p +++ s) = (String.length p + String.length s)%nat).
  { induction p; simpl; auto. }
  rewrite Hlen. apply andb_true_iff. split.
  - apply Nat.leb_le. lia.
  - replace (String.length p + String.length s - String.length s)%nat
      with (String.length p) by lia.
    apply String.eqb_eq.
    clear Hlen. induction p; simpl; auto.
Qed.

End StrFacts.

(** ** The response pipeline of [analyze_contract] *)

Module Pipeline.
Import Analysis StrFacts Samples.

Section WithChain.

Variable format_prompt : string -> string.
Variable llm_invoke : string -> option string.
Variable json_loads : string -> option json.

(** C4.  When the sanitized completion is empty, [analyze_contract]
    returns the canned empty-response result and hands nothing to
    [json.loads]: a failure summary, no clauses, one flag that mentions
    the empty response, and a null overall score.  The completion [""] is
    such a case. *)
Theorem empty_response_short_circuit (contract_text content : string) :
  llm_invoke (format_prompt contract_text) = Some content ->
  sanitize content = "" ->
  analyze_contract format_prompt llm_invoke json_loads contract_text
  = ([], Returned empty_response_result)
  /\ (exists summary flag,
        empty_response_result
        = JObj [("summary", JStr summary); ("clauses", JArr []);
                ("flags", JArr [JStr flag]); ("overall_risk_score", JNull)]
        /\ str_in "unable to analyze" (lower summary) = true
        /\ str_in "empty response" (lower flag) = true)
  /\ sanitize "" = "".
Proof.
  intros Hllm Hempty. split; [|split].
  - unfold analyze_contract, analyze_text. now rewrite Hllm, Hempty.
  - do 2 eexists. split; [reflexivity|]. split; reflexivity.
  - reflexivity.
Qed.


End WithChain.

(** The empty completion, run with the decoder. *)
Lemma empty_response_short_circuit_witness :
  analyze_contract (fun t => t) (fun _ => Some "") Decoder.json_loads "contract"
  = ([], Returned empty_response_result).
Proof.
  apply (empty_response_short_circuit (fun t => t) (fun _ => Some "")
           Decoder.json_loads "contract" ""); reflexivity.
Defined.


(** C8, as stated, fails: a response that is not wrapped in a fenced block
    but mentions the fence marker inside a string is valid JSON, and the
    fence removal turns it into the empty text, so that the chain reports
    an empty response. *)
Lemma unfenced_response_is_altered :
  startswith "```" (strip unfenced_with_marker) = false
  /\ endswith "```" (strip unfenced_with_marker) = false
  /\ Decoder.json_loads unfenced_with_marker
     = Some (JObj [("summary", JStr "see ``` below")])
  /\ sanitize unfenced_with_marker = ""
  /\ sanitize unfenced_with_marker <> strip unfenced_with_marker
  /\ analyze_contract (fun t => t) (fun _ => Some unfenced_with_marker)
       Decoder.json_loads "contract"
     = ([], Returned empty_response_result).
Proof.
  repeat split; try (vm_compute; reflexivity).
  vm_compute. discriminate.
Qed.

(** C8, amended.  For every completion whose stripped text holds no fence
    marker, the fence removal is a no-op: the text that goes on to the
    empty check, the repair and the parse is the stripped completion. *)
Theorem unfenced_sanitize_noop (content : string) :
  str_in "```" (strip content) = false ->
  sanitize content = strip content
  /\ strip_fences (sanitize content) = sanitize content.
Proof.
  intros Hno.
  assert (Hid : strip_fences (strip content) = strip content).
  { unfold strip_fences.
    rewrite (str_in_absent_longer "```" "```json" _ eq_refl Hno).
    now rewrite Hno. }
  unfold sanitize. now rewrite !Hid.
Qed.

Lemma unfenced_sanitize_noop_witness :
  sanitize unfenced_plain = strip unfenced_plain
  /\ strip_fences (sanitize unfenced_plain) = sanitize unfenced_plain.
Proof.
  apply (unfenced_sanitize_noop unfenced_plain). reflexivity.
Defined.

End Pipeline.

(** ** The repair of a truncated response *)

Module Repair.
Import Analysis StrFacts Samples.



Lemma closing_fragment_ends_with_brace :
  exists body, closing_fragment = body +++ "}".
Proof.
  exists (take (String.length closing_fragment - 1) closing_fragment).
  vm_compute. reflexivity.
Qed.



End Repair.

(** ** The token gate of the chat input *)

Module Gate.
Import App Samples.

Section WithSession.

Variable encode : string -> list Z.
Variable rag_invoke : string -> string.

Lemma count_loop_sum (msgs : list message) (total : Z) :
  count_loop encode msgs total = total + content_tokens encode msgs.
Proof.
  revert total. induction msgs as [|m rest IH]; intros total; simpl.
  - unfold content_tokens. simpl. lia.
  - rewrite IH. unfold content_tokens. simpl. lia.
Qed.

Lemma chat_input_blocked (history : list message) (prompt : string) :
  MAX_TOKENS < total_used_tokens encode history prompt ->
  blocked history (chat_input encode rag_invoke history prompt).
Proof.
  intros H. unfold chat_input.
  replace (total_used_tokens encode history prompt >? MAX_TOKENS) with true
    by (symmetry; rewrite Z.gtb_ltb; apply Z.ltb_lt; lia).
  repeat split. now eexists.
Qed.

Lemma chat_input_permitted (history : list message) (prompt : string) :
  total_used_tokens encode history prompt <= MAX_TOKENS ->
  permitted history prompt (chat_input encode rag_invoke history prompt)
  /\ ~ blocked history (chat_input encode rag_invoke history prompt)
  /\ (WARN_THRESHOLD < total_used_tokens encode history prompt ->
      warned (chat_input encode rag_invoke history prompt))
  /\ (total_used_tokens encode history prompt <= WARN_THRESHOLD ->
      silent (chat_input encode rag_invoke history prompt)).
Proof.
  intros H. unfold chat_input.
  replace (total_used_tokens encode history prompt >? MAX_TOKENS) with false
    by (symmetry; rewrite Z.gtb_ltb; apply Z.ltb_ge; lia).
  split; [|split; [|split]].
  - exists (rag_invoke prompt). split; reflexivity.
  - intros [_ [_ Hasked]]. discriminate.
  - intros Hw.
    replace (total_used_tokens encode history prompt >? WARN_THRESHOLD) with true
      by (symmetry; rewrite Z.gtb_ltb; apply Z.ltb_lt; lia).
    eexists. left. reflexivity.
  - intros Hw.
    replace (total_used_tokens encode history prompt >? WARN_THRESHOLD) with false
      by (symmetry; rewrite Z.gtb_ltb; apply Z.ltb_ge; lia).
    intros used max. simpl. split; intros [X|[X|[]]]; discriminate.
Qed.

(** C2, amended.  The gate counts the tokens of the contents of all
    messages, the pending one included, and adds the buffer of 500.  Up to
    the warn threshold 5734 the message is permitted with nothing shown;
    above it and up to the maximum 8192 a warning is shown and the message
    is permitted; above the maximum the message is blocked: it is neither
    passed to the answerer nor appended to the history. *)
Theorem token_gate_zones (history : list message) (prompt : string) :
  let used := total_used_tokens encode history prompt in
  let run := chat_input encode rag_invoke history prompt in
  used = content_tokens encode (history ++ [Message "user" prompt]) + BUFFER_TOKENS
  /\ (used <= WARN_THRESHOLD ->
      permitted history prompt run /\ silent run /\ ~ blocked history run)
  /\ (WARN_THRESHOLD < used <= MAX_TOKENS ->
      permitted history prompt run /\ warned run /\ ~ blocked history run)
  /\ (MAX_TOKENS < used ->
      blocked history run /\ ~ permitted history prompt run /\ ~ warned run).
Proof.
  intros used run. subst used run. split; [|split; [|split]].
  - unfold total_used_tokens, count_tokens. rewrite count_loop_sum. lia.
  - intros H.
    destruct (chat_input_permitted history prompt) as [Hp [Hb [_ Hs]]];
      [unfold WARN_THRESHOLD, MAX_TOKENS in *; lia|].
    auto.
  - intros [H1 H2].
    destruct (chat_input_permitted history prompt H2) as [Hp [Hb [Hw _]]].
    auto.
  - intros H. pose proof (chat_input_blocked history prompt H) as Hb.
    split; [exact Hb|]. destruct Hb as [[used Hd] [_ Ha]].
    split.
    + intros [response [_ Hasked]]. rewrite Ha in Hasked. discriminate.
    + intros [u Hin]. rewrite Hd in Hin. destruct Hin as [X|[]]. discriminate.
Qed.

(** C3, amended.  With the maximum 8192, the warn threshold 5734 and the
    buffer 500, counted tokens of 7800 and of 7700 both block, as does
    every count of 7693 or more; a count from 5235 to 7692 warns without
    blocking, and a count of 5234 or less does neither. *)
Theorem token_gate_scenario (history : list message) (prompt : string) :
  let counted := count_tokens encode (history ++ [Message "user" prompt]) in
  let run := chat_input encode rag_invoke history prompt in
  (counted = 7800 -> blocked history run)
  /\ (counted = 7700 -> blocked history run)
  /\ (7693 <= counted -> blocked history run)
  /\ (5235 <= counted <= 7692 ->
      warned run /\ permitted history prompt run /\ ~ blocked history run)
  /\ (counted <= 5234 ->
      silent run /\ permitted history prompt run /\ ~ blocked history run).
Proof.
  intros counted run. subst counted run.
  assert (Hb : 7693 <= count_tokens encode (history ++ [Message "user" prompt]) ->
               blocked history (chat_input encode rag_invoke history prompt)).
  { intros H. apply chat_input_blocked.
    unfold total_used_tokens, MAX_TOKENS, BUFFER_TOKENS. lia. }
  split; [|split; [|split; [|split]]].
  - intros H. apply Hb. lia.
  - intros H. apply Hb. lia.
  - exact Hb.
  - intros H.
    destruct (chat_input_permitted history prompt) as [Hp [Hnb [Hw _]]].
    { unfold total_used_tokens, MAX_TOKENS, BUFFER_TOKENS. lia. }
    split; [|auto]. apply Hw.
    unfold total_used_tokens, WARN_THRESHOLD, BUFFER_TOKENS. lia.
  - intros H.
    destruct (chat_input_permitted history prompt) as [Hp [Hnb [_ Hs]]].
    { unfold total_used_tokens, MAX_TOKENS, BUFFER_TOKENS. lia. }
    split; [|auto]. apply Hs.
    unfold total_used_tokens, WARN_THRESHOLD, BUFFER_TOKENS. lia.
Qed.

End WithSession.

(** C2, as stated, fails at the maximum itself: a message that brings the
    total to exactly 8192 is not blocked; it is answered and appended, with
    a warning. *)
Lemma gate_at_max_is_not_blocked :
  total_used_tokens (flat_encoder 7692) [] "question" = MAX_TOKENS
  /\ chat_input (flat_encoder 7692) (fun _ => "answer") [] "question"
     = ChatRun [Message "user" "question"; Message "assistant" "answer"]
         [StWarning 8192 8192; StChatMessage "user" "question";
          StChatMessage "assistant" "answer"]
         ["question"]
  /\ ~ blocked [] (chat_input (flat_encoder 7692) (fun _ => "answer") [] "question").
Proof.
  assert (H : chat_input (flat_encoder 7692) (fun _ => "answer") [] "question"
              = ChatRun [Message "user" "question"; Message "assistant" "answer"]
                  [StWarning 8192 8192; StChatMessage "user" "question";
                   StChatMessage "assistant" "answer"]
                  ["question"]) by (vm_compute; reflexivity).
  rewrite H. split; [|split].
  - vm_compute. reflexivity.
  - reflexivity.
  - intros [_ [_ Ha]]. discriminate.
Qed.

Lemma token_gate_zones_witness :
  blocked [] (chat_input (flat_encoder 7693) (fun _ => "answer") [] "question").
Proof.
  refine (proj1 (proj2 (proj2 (proj2 (token_gate_zones (flat_encoder 7693)
                   (fun _ => "answer") [] "question"))) _)).
  vm_compute. reflexivity.
Defined.

(** C3, as stated, fails: counted tokens of 7700 make 8200 with the buffer,
    above the maximum, so the message is blocked rather than let through
    silently; 7800 blocks as well rather than warning. *)
Lemma gate_scenario_counts_block :
  count_tokens (flat_encoder 7700) ([] ++ [Message "user" "question"]) = 7700
  /\ chat_input (flat_encoder 7700) (fun _ => "answer") [] "question"
     = ChatRun [] [StError 8200 8192] []
  /\ ~ permitted [] "question"
         (chat_input (flat_encoder 7700) (fun _ => "answer") [] "question")
  /\ count_tokens (flat_encoder 7800) ([] ++ [Message "user" "question"]) = 7800
  /\ chat_input (flat_encoder 7800) (fun _ => "answer") [] "question"
     = ChatRun [] [StError 8300 8192] []
  /\ ~ warned (chat_input (flat_encoder 7800) (fun _ => "answer") [] "question").
Proof.
  assert (H1 : chat_input (flat_encoder 7700) (fun _ => "answer") [] "question"
               = ChatRun [] [StError 8200 8192] []) by (vm_compute; reflexivity).
  assert (H2 : chat_input (flat_encoder 7800) (fun _ => "answer") [] "question"
               = ChatRun [] [StError 8300 8192] []) by (vm_compute; reflexivity).
  rewrite H1, H2. split; [|split; [|split; [|split; [|split]]]].
  - vm_compute. reflexivity.
  - reflexivity.
  - intros [response [_ Ha]]. discriminate.
  - vm_compute. reflexivity.
  - reflexivity.
  - intros [used [X|[]]]. discriminate.
Qed.

Lemma token_gate_scenario_witness :
  blocked [] (chat_input (flat_encoder 7800) (fun _ => "answer") [] "question").
Proof.
  refine (proj1 (token_gate_scenario (flat_encoder 7800) (fun _ => "answer")
                   [] "question") _).
  vm_compute. reflexivity.
Defined.

End Gate.

(** ** The answerer *)

Module Answerer.
Import Rag StrFacts.

Lemma join_app (sep : string) (xs ys : list string) :
  xs <> [] -> ys <> [] ->
  join sep (xs ++ ys) = join sep xs +++ sep +++ join sep ys.
Proof.
  intros Hx Hy. induction xs as [|x xs IH]; [contradiction|].
  destruct xs as [|x' xs].
  - simpl. destruct ys; [contradiction | reflexivity].
  - change (join sep ((x :: x' :: xs) ++ ys))
      with (x +++ sep +++ join sep ((x' :: xs) ++ ys)).
    rewrite IH by discriminate.
    change (join sep (x :: x' :: xs)) with (x +++ sep +++ join sep (x' :: xs)).
    now rewrite !append_assoc.
Qed.

(** C7, as stated, fails in its last part: the completion is returned as
    it is, white space included. *)
Lemma answer_is_not_trimmed :
  invoke (fun _ => [Document "Fees are due in 30 days." ∅])
    (fun _ => " Thirty days. ") "When are fees due?"
  = " Thirty days. "
  /\ invoke (fun _ => [Document "Fees are due in 30 days." ∅])
       (fun _ => " Thirty days. ") "When are fees due?"
     <> strip " Thirty days. ".
Proof. split; [reflexivity | vm_compute; discriminate]. Qed.

(** C7, amended.  For every question the answerer joins the texts of the
    retrieved chunks in retrieval order with a line break between them,
    places the result and the question in the fixed prompt that opens with
    "Based on this contract:", and returns the completion's text verbatim,
    without trimming.  With no chunk retrieved the context is empty and the
    prompt is still sent. *)
Theorem answer_from_retrieved_context
    (retriever_invoke : string -> list document)
    (llm_invoke : string -> string) (question : string) :
  let context := join nl (map page_content (retriever_invoke question)) in
  invoke retriever_invoke llm_invoke question
  = llm_invoke ("Based on this contract:" +++ nl +++ context +++ nl +++ nl
                +++ "Question: " +++ question +++ nl +++ nl +++ "Answer:")
  /\ (forall first rest,
        retriever_invoke question = first ++ rest -> first <> [] -> rest <> [] ->
        context = join nl (map page_content first) +++ nl
                  +++ join nl (map page_content rest))
  /\ (forall only, retriever_invoke question = [only] ->
                   context = page_content only)
  /\ (retriever_invoke question = [] -> context = "").
Proof.
  intros context. subst context. split; [reflexivity|]. split; [|split].
  - intros first rest Hdocs Hf Hr. rewrite Hdocs, map_app.
    apply join_app.
    + destruct first; [contradiction | discriminate].
    + destruct rest; [contradiction | discriminate].
  - intros only ->. reflexivity.
  - intros ->. reflexivity.
Qed.

Lemma answer_from_retrieved_context_witness :
  join nl (map page_content [Document "first" ∅; Document "second" ∅])
  = "first" +++ nl +++ "second".
Proof.
  apply (proj1 (proj2 (answer_from_retrieved_context
                         (fun _ => [Document "first" ∅; Document "second" ∅])
                         (fun p => p) "q"))
           [Document "first" ∅] [Document "second" ∅]);
    [reflexivity | discriminate | discriminate].
Defined.

End Answerer.

(** ** The chunk metadata *)

Module Chunks.
Import Rag VectorStore ChunkSpec.

Section WithSplitter.

Variable split_text : Z -> Z -> string -> list string.

Lemma chunk_loop_appends (doc_metadata : gmap string meta) (total : Z)
    (chunks : list string) (i : Z) (acc : list document) :
  chunk_loop doc_metadata total chunks i acc
  = acc ++ chunks_from doc_metadata total chunks i.
Proof.
  revert i acc. induction chunks as [|c rest IH]; intros i acc; simpl.
  - now rewrite app_nil_r.
  - rewrite IH, <- app_assoc. reflexivity.
Qed.

Lemma docs_loop_appends (chunk_size chunk_overlap : Z) (docs acc : list document) :
  docs_loop split_text chunk_size chunk_overlap docs acc
  = acc ++ concat (map (fun doc =>
                          let chunks := split_text chunk_size chunk_overlap
                                          (page_content doc) in
                          chunks_from (metadata doc) (Z.of_nat (length chunks))
                            chunks 0) docs).
Proof.
  revert acc. induction docs as [|d rest IH]; intros acc; simpl.
  - now rewrite app_nil_r.
  - rewrite IH, chunk_loop_appends, <- app_assoc. reflexivity.
Qed.

Lemma chunks_from_length (doc_metadata : gmap string meta) (total : Z)
    (chunks : list string) (i : Z) :
  length (chunks_from doc_metadata total chunks i) = length chunks.
Proof.
  revert i. induction chunks; intros i; simpl; auto.
Qed.

Lemma chunks_from_lookup (doc_metadata : gmap string meta) (total : Z)
    (chunks : list string) (i : Z) (k : nat) (chunk : string) :
  chunks !! k = Some chunk ->
  chunks_from doc_metadata total chunks i !! k
  = Some (Document chunk
            (chunk_metadata doc_metadata (i + Z.of_nat k) total chunk)).
Proof.
  revert i k. induction chunks as [|c rest IH]; intros i k H.
  - discriminate.
  - destruct k as [|k]; simpl in *.
    + inversion H. subst. now rewrite Z.add_0_r.
    + rewrite (IH (i + 1) k H). do 3 f_equal. lia.
Qed.

Lemma chunks_from_group (doc : document) (chunks : list string) :
  group_of doc chunks
    (chunks_from (metadata doc) (Z.of_nat (length chunks)) chunks 0).
Proof.
  split; [apply chunks_from_length|].
  intros i chunk Hi.
  exists (Document chunk
            (chunk_metadata (metadata doc) (Z.of_nat i)
               (Z.of_nat (length chunks)) chunk)).
  split; [now rewrite (chunks_from_lookup _ _ _ 0 _ _ Hi), Z.add_0_l|].
  unfold chunk_metadata. cbn [metadata page_content].
  split; [reflexivity|]. split; [|split; [|split; [|split]]].
  - rewrite lookup_insert_ne by done. rewrite lookup_insert_ne by done.
    now rewrite lookup_insert_eq.
  - rewrite lookup_insert_ne by done. now rewrite lookup_insert_eq.
  - now rewrite lookup_insert_eq.
  - intros key [v Hv].
    destruct (decide (key = "chunk_size")) as [->|H1];
      [rewrite lookup_insert_eq; eauto|].
    rewrite lookup_insert_ne by congruence.
    destruct (decide (key = "total_chunks")) as [->|H2];
      [rewrite lookup_insert_eq; eauto|].
    rewrite lookup_insert_ne by congruence.
    destruct (decide (key = "chunk_index")) as [->|H3];
      [rewrite lookup_insert_eq; eauto|].
    rewrite lookup_insert_ne by congruence. eauto.
  - intros key H1 H2 H3.
    now rewrite !lookup_insert_ne by congruence.
Qed.

(** C10.  For every list of documents and every chunk size and overlap,
    the output of [_chunk_documents] is the concatenation, in input order,
    of one group per document; the group of a document lists the splitter's
    chunks of its text in order, and the chunk at position [i] (from 0)
    carries [chunk_index = i], [total_chunks] = the number of chunks of
    that document, [chunk_size] = the length of its own text, and every
    metadata key of the document. *)
Theorem chunk_documents_metadata (docs : list document) (chunk_size chunk_overlap : Z) :
  exists groups : list (list document),
    _chunk_documents split_text docs chunk_size chunk_overlap = concat groups
    /\ Forall2 (fun doc group =>
                  group_of doc (split_text chunk_size chunk_overlap (page_content doc))
                    group)
         docs groups.
Proof.
  eexists. split.
  - unfold _chunk_documents. rewrite docs_loop_appends. reflexivity.
  - induction docs as [|d rest IH]; simpl; constructor.
    + apply chunks_from_group.
    + exact IH.
Qed.

End WithSplitter.

End Chunks.

(** ** Exact float arithmetic on small dyadic numbers *)

Module FloatFacts.

Lemma canon_double (m e : Z) : canon (2 * m) e = canon m (e + 1).
Proof. destruct m; reflexivity. Qed.

Lemma canon_shift_nat (k : nat) (m e : Z) :
  canon (m * 2 ^ Z.of_nat k) e = canon m (e + Z.of_nat k).
Proof.
  revert e. induction k as [|k IH]; intros e.
  - simpl. now rewrite Z.mul_1_r, Z.add_0_r.
  - rewrite Nat2Z.inj_succ, Z.pow_succ_r by lia.
    replace (m * (2 * 2 ^ Z.of_nat k)) with (2 * (m * 2 ^ Z.of_nat k)) by lia.
    rewrite canon_double, IH. f_equal. lia.
Qed.

Lemma canon_shift (k m e : Z) :
  0 <= k -> canon (m * 2 ^ k) e = canon m (e + k).
Proof.
  intros Hk. rewrite <- (Z2Nat.id k Hk). apply canon_shift_nat.
Qed.

Lemma strip_spec (p : positive) (e : Z) :
  exists (q : positive) (k : Z),
    strip_zeros p e = (q, e + k) /\ 0 <= k /\ Zpos p = Zpos q * 2 ^ k.
Proof.
  revert e. induction p as [p IH|p IH|]; intros e.
  - exists (xI p), 0. simpl. rewrite Z.add_0_r. repeat split; lia.
  - destruct (IH (e + 1)) as [q [k [Hs [Hk Hv]]]].
    exists q, (k + 1). simpl. rewrite Hs. repeat split; [f_equal; lia | lia |].
    rewrite Z.pow_add_r, Z.pow_1_r by lia. lia.
  - exists 1%positive, 0. simpl. rewrite Z.add_0_r. repeat split; lia.
Qed.

(** The canonical form of a number [a * 2^c], [0 <= a]. *)
Lemma canon_spec (a c : Z) :
  0 <= a ->
  exists m k, canon a c = FFin m (if a =? 0 then 0 else c + k)
              /\ 0 <= k /\ a = m * 2 ^ k /\ (0 < a -> 0 < m).
Proof.
  intros Ha. destruct a as [|p|p]; [| |lia].
  - exists 0, 0. simpl. repeat split; lia.
  - destruct (strip_spec p c) as [q [k [Hs [Hk Hv]]]].
    exists (Zpos q), k. unfold canon. rewrite Hs. simpl.
    repeat split; auto; lia.
Qed.

Lemma lg2q_integer (n : Z) : 0 < n -> lg2q n 1 = Z.log2 n.
Proof.
  intros Hn. unfold lg2q, below. simpl (Z.log2 1). rewrite Z.sub_0_r.
  pose proof (Z.log2_nonneg n) as Hl.
  replace (0 <=? Z.log2 n) with true by (symmetry; apply Z.leb_le; lia).
  pose proof (Z.log2_spec n Hn) as [Hlow _].
  replace (n <? 1 * 2 ^ Z.log2 n) with false by (symmetry; apply Z.ltb_ge; lia).
  reflexivity.
Qed.

Lemma rne_div_one (n : Z) : rne_div n 1 = n.
Proof.
  unfold rne_div. rewrite Z.mod_1_r, Z.div_1_r. reflexivity.
Qed.

(** Rounding leaves a 53-bit integer mantissa with an exponent in range
    as it is. *)
Lemma round_pos_exact (n c : Z) :
  0 < n < 2 ^ 53 -> -1074 <= c <= 970 ->
  round_pos n 1 c = canon n c.
Proof.
  intros [Hn Hb] [Hc1 Hc2]. unfold round_pos.
  rewrite (lg2q_integer n Hn).
  assert (Hl : Z.log2 n < 53) by (apply Z.log2_lt_pow2; lia).
  set (e := Z.max (Z.log2 n + c - 52) (-1074)).
  assert (He : e <= c) by (unfold e; pose proof (Z.log2_nonneg n); lia).
  assert (He' : -1074 <= e) by (unfold e; lia).
  replace (0 <=? c - e) with true by (symmetry; apply Z.leb_le; lia).
  rewrite rne_div_one.
  assert (Hval : n * 2 ^ (c - e) * 2 ^ e = n * 2 ^ c \/ e < 0).
  { destruct (Z_lt_le_dec e 0) as [H|H]; [now right | left].
    rewrite <- Z.mul_assoc, <- Z.pow_add_r by lia. do 2 f_equal. lia. }
  assert (Hno : (0 <=? e) && (2 ^ 1024 <=? n * 2 ^ (c - e) * 2 ^ e) = false).
  { destruct (0 <=? e) eqn:E; [|reflexivity]. simpl.
    apply Z.leb_le in E. destruct Hval as [Hval|Hval]; [|lia].
    rewrite Hval. apply Z.leb_gt.
    apply Z.lt_le_trans with (2 ^ 53 * 2 ^ c).
    - apply Z.mul_lt_mono_pos_r; [apply Z.pow_pos_nonneg; lia | exact Hb].
    - rewrite <- Z.pow_add_r by lia. apply Z.pow_le_mono_r; lia. }
  rewrite Hno. rewrite canon_shift by lia. f_equal. lia.
Qed.

Lemma round_q_exact (n c : Z) :
  0 <= n < 2 ^ 53 -> -1074 <= c <= 970 ->
  round_q n 1 c = canon n (if n =? 0 then 0 else c).
Proof.
  intros [Hn Hb] Hc. destruct n as [|p|p]; [reflexivity | | lia].
  unfold round_q. now apply round_pos_exact.
Qed.


(** The canonical form of [a * 2^c] for [c] among -1 and 0. *)
Lemma canon_form (a c : Z) :
  0 <= a < 2 ^ 53 -> -1 <= c <= 0 ->
  exists m e, canon a c = FFin m e
              /\ c <= e <= c + 53 /\ 0 <= m
              /\ a = m * 2 ^ (e - c) /\ (0 < a -> 0 < m).
Proof.
  intros [Ha Hb] Hc. destruct (canon_spec a c Ha) as [m [k [Hcan [Hk [Hv Hm]]]]].
  destruct (a =? 0) eqn:E.
  - apply Z.eqb_eq in E. subst a. exists 0, 0. split; [reflexivity|].
    repeat split; lia.
  - apply Z.eqb_neq in E. exists m, (c + k). split; [exact Hcan|].
    assert (Hmpos : 0 < m) by (apply Hm; lia).
    assert (Hk53 : k < 53).
    { destruct (Z_lt_le_dec k 53) as [H|H]; [exact H | exfalso].
      assert (H53 : 2 ^ 53 <= 2 ^ k) by (apply Z.pow_le_mono_r; lia).
      assert (Hmk : 2 ^ k <= m * 2 ^ k).
      { generalize dependent (2 ^ k). intros P; intros. nia. }
      lia. }
    replace (c + k - c) with k by lia. repeat split; auto; lia.
Qed.

Lemma pow2_pos (k : Z) : 0 <= k -> 1 <= 2 ^ k.
Proof.
  intros Hk. change 1 with (2 ^ 0). apply Z.pow_le_mono_r; lia.
Qed.

(** Adding two half-integers is exact while the sum has 53 bits. *)
Lemma fadd_halves (a b : Z) :
  0 <= a -> 0 <= b -> a + b < 2 ^ 53 ->
  fadd (halves a) (halves b) = halves (a + b).
Proof.
  intros Ha Hb Hab. unfold halves.
  destruct (canon_form a (-1)) as [m1 [e1 [H1 [He1 [Hm1 [Hv1 _]]]]]]; [lia | lia |].
  destruct (canon_form b (-1)) as [m2 [e2 [H2 [He2 [Hm2 [Hv2 _]]]]]]; [lia | lia |].
  rewrite H1, H2. unfold fadd.
  set (e := Z.min e1 e2).
  set (M := m1 * 2 ^ (e1 - e) + m2 * 2 ^ (e2 - e)).
  assert (Hsum : a + b = M * 2 ^ (e + 1)).
  { unfold M. rewrite Z.mul_add_distr_r, <- !Z.mul_assoc, <- !Z.pow_add_r
      by (unfold e; lia).
    rewrite Hv1, Hv2. do 2 f_equal; f_equal; lia. }
  assert (Hp1 : 1 <= 2 ^ (e1 - e)) by (apply pow2_pos; unfold e; lia).
  assert (Hp2 : 1 <= 2 ^ (e2 - e)) by (apply pow2_pos; unfold e; lia).
  assert (Hp3 : 1 <= 2 ^ (e + 1)) by (apply pow2_pos; unfold e; lia).
  assert (HM : 0 <= M < 2 ^ 53) by (unfold M in *; nia).
  rewrite round_q_exact by (unfold e; lia).
  rewrite Hsum, canon_shift by (unfold e; lia).
  destruct (M =? 0) eqn:E.
  - apply Z.eqb_eq in E. now rewrite E.
  - f_equal. lia.
Qed.

(** An integer in float range converts exactly. *)
Lemma of_int_exact (n : Z) : 0 < n < 2 ^ 53 -> of_int n = Some (canon n 0).
Proof.
  intros Hn. unfold of_int. rewrite round_q_exact by lia.
  replace (n =? 0) with false by (symmetry; apply Z.eqb_neq; lia).
  destruct (canon_form n 0) as [m [e [H _]]]; [lia | lia |].
  now rewrite H.
Qed.

(** An integer times a half-integer is exact while the product has 53
    bits. *)
Lemma fmul_int_halves (s w : Z) :
  0 < s -> 0 < w -> s * w < 2 ^ 53 ->
  fmul (canon s 0) (halves w) = halves (s * w).
Proof.
  intros Hs Hw Hsw. unfold halves.
  destruct (canon_form s 0) as [m1 [e1 [H1 [He1 [_ [Hv1 Hm1]]]]]]; [nia | lia |].
  destruct (canon_form w (-1)) as [m2 [e2 [H2 [He2 [_ [Hv2 Hm2]]]]]]; [nia | lia |].
  specialize (Hm1 Hs). specialize (Hm2 Hw).
  rewrite H1, H2. unfold fmul.
  assert (Hp1 : 1 <= 2 ^ (e1 - 0)) by (apply pow2_pos; lia).
  assert (Hp2 : 1 <= 2 ^ (e2 - -1)) by (apply pow2_pos; lia).
  assert (Hprod : s * w = m1 * m2 * 2 ^ (e1 + e2 + 1)).
  { rewrite Hv1 at 1. rewrite Hv2 at 1.
    replace (e1 + e2 + 1) with ((e1 - 0) + (e2 - -1)) by lia.
    rewrite Z.pow_add_r by lia. lia. }
  assert (HM : 0 < m1 * m2 < 2 ^ 53).
  { split; [nia|].
    assert (1 <= 2 ^ (e1 + e2 + 1)) by (apply pow2_pos; lia). nia. }
  rewrite round_q_exact by lia.
  replace (m1 * m2 =? 0) with false by (symmetry; apply Z.eqb_neq; lia).
  rewrite Hprod, canon_shift by lia. f_equal. lia.
Qed.

End FloatFacts.

(** ** The score and the order of the clauses *)

Module OrderFacts.
Import Analysis RiskSpec ExactSpec AggregationFacts FloatFacts.

Lemma clause_weight_halves (name : string) :
  clause_weight name = halves (doubled_weight name).
Proof.
  unfold clause_weight, doubled_weight, weight_table, doubled_table.
  cbn [List.find fst snd].
  repeat (destruct (matches _ name); [reflexivity|]).
  reflexivity.
Qed.

Lemma doubled_weight_bounds (name : string) : 2 <= doubled_weight name <= 6.
Proof.
  unfold doubled_weight, doubled_table. cbn [List.find fst snd].
  repeat (destruct (matches _ name); [simpl; lia|]).
  simpl. lia.
Qed.

Lemma integer_scored_ok (c : json) : integer_scored c = true -> clause_ok c = true.
Proof. unfold integer_scored. intros H. now apply andb_true_iff in H as [H _]. Qed.

Lemma integer_score_nonneg (c : json) : 0 <= integer_score c.
Proof.
  unfold integer_score. destruct c as [| | | | | |fields]; try lia.
  destruct (dict_get fields "risk_score") as [[|[]|n| | | |]|]; lia.
Qed.

Lemma positive_score_integer (c : json) :
  integer_scored c = true -> integer_score c < 2 ^ 53 ->
  positive_score c
  = if 0 <? integer_score c then Some (canon (integer_score c) 0) else None.
Proof.
  unfold integer_scored, positive_score, integer_score.
  destruct c as [| | | | | |fields]; try (intros; reflexivity).
  intros H Hb. apply andb_true_iff in H as [_ H].
  destruct (dict_get fields "risk_score") as [[|[]|n|x| | |]|];
    try reflexivity; try discriminate.
  destruct (0 <? n) eqn:E.
  - apply Z.ltb_lt in E. rewrite Z.max_l in * by lia.
    replace (0 <? n) with true by (symmetry; apply Z.ltb_lt; lia).
    apply of_int_exact. lia.
  - apply Z.ltb_ge in E. rewrite Z.max_r by lia. reflexivity.
Qed.

Lemma doubled_weight_total_le (clauses : list json) :
  0 <= doubled_weight_total clauses <= doubled_total clauses.
Proof.
  unfold doubled_weight_total, doubled_total.
  induction clauses as [|c rest IH]; simpl; [lia|].
  pose proof (integer_score_nonneg c).
  pose proof (doubled_weight_bounds (name_of c)).
  destruct (0 <? integer_score c) eqn:E.
  - apply Z.ltb_lt in E. nia.
  - apply Z.ltb_ge in E. nia.
Qed.

(** The two accumulators are exact on integer-scored clauses. *)
Lemma sums_exact (clauses : list json) (n d : Z) :
  forallb integer_scored clauses = true ->
  0 <= n -> 0 <= d ->
  n + doubled_total clauses < 2 ^ 53 ->
  d + doubled_total clauses < 2 ^ 53 ->
  fold_left fadd (map (fun sw => fmul (fst sw) (snd sw)) (qualifying clauses))
    (halves n)
  = halves (n + doubled_total clauses)
  /\ fold_left fadd (map snd (qualifying clauses)) (halves d)
     = halves (d + doubled_weight_total clauses).
Proof.
  revert n d. induction clauses as [|c rest IH]; intros n d Hall Hn Hd Hbn Hbd.
  - unfold doubled_total, doubled_weight_total. simpl. now rewrite !Z.add_0_r.
  - simpl in Hall. apply andb_true_iff in Hall as [Hc Hrest].
    pose proof (integer_score_nonneg c) as Hs.
    pose proof (doubled_weight_bounds (name_of c)) as Hw.
    pose proof (doubled_weight_total_le rest) as Hle.
    assert (Hd0 : doubled_total (c :: rest)
                  = integer_score c * doubled_weight (name_of c) + doubled_total rest)
      by reflexivity.
    assert (Hw0 : doubled_weight_total (c :: rest)
                  = (if 0 <? integer_score c then doubled_weight (name_of c) else 0)
                    + doubled_weight_total rest)
      by reflexivity.
    rewrite Hd0 in Hbn, Hbd. rewrite Hd0, Hw0.
    unfold qualifying. cbn [omap list_omap].
    rewrite positive_score_integer by (auto; nia).
    destruct (0 <? integer_score c) eqn:E.
    + apply Z.ltb_lt in E. cbn [map fold_left fst snd].
      fold (qualifying rest).
      rewrite clause_weight_halves.
      rewrite fmul_int_halves by nia.
      rewrite !fadd_halves by nia.
      destruct (IH (n + integer_score c * doubled_weight (name_of c))
                   (d + doubled_weight (name_of c)) Hrest) as [H1 H2]; try nia.
      rewrite H1, H2. split; f_equal; lia.
    + apply Z.ltb_ge in E. fold (qualifying rest).
      assert (integer_score c = 0) as -> by lia.
      destruct (IH n d Hrest) as [H1 H2]; try lia.
      rewrite H1, H2. split; f_equal; lia.
Qed.

Lemma sum_permutation (xs ys : list Z) :
  Permutation xs ys -> fold_right Z.add 0 xs = fold_right Z.add 0 ys.
Proof. induction 1; simpl; lia. Qed.

Lemma forallb_permutation {A : Type} (f : A -> bool) (xs ys : list A) :
  Permutation xs ys -> forallb f xs = true -> forallb f ys = true.
Proof.
  intros Hp H. apply forallb_forall. intros x Hx.
  rewrite forallb_forall in H. apply H.
  apply (Permutation_in x (Permutation_sym Hp)). exact Hx.
Qed.

(** On integer-scored clauses the score is a function of the two integer
    totals. *)
Lemma overall_from_totals (clauses : list json) :
  forallb integer_scored clauses = true ->
  doubled_total clauses < 2 ^ 53 ->
  overall_risk_score clauses
  = if fpos (halves (doubled_weight_total clauses)) then
      JFloat (round1 (from_option id FNaN
                        (fdiv (halves (doubled_total clauses))
                           (halves (doubled_weight_total clauses)))))
    else JNull.
Proof.
  intros Hall Hb.
  pose proof (doubled_weight_total_le clauses) as Hle.
  destruct (sums_exact clauses 0 0 Hall) as [H1 H2]; try lia.
  rewrite !Z.add_0_l in H1, H2.
  unfold overall_risk_score, numerator, denominator.
  change (FFin 0 0) with (halves 0). now rewrite H1, H2.
Qed.

End OrderFacts.

Module Order.
Import Analysis RiskSpec ExactSpec AggregationFacts OrderFacts.

(** C9, as stated, fails: the two sums are float sums, and float addition
    depends on the order.  The clauses scored 8.1, 5.7 and 9.9 give 7.9,
    and 8.0 once the last two are exchanged; three clauses with the integer
    scores 10^16, 1 and 1 give different scores when reversed. *)
Lemma clause_order_changes_the_score :
  Permutation fractional_clauses fractional_clauses_swapped
  /\ overall_risk_score fractional_clauses = JFloat (tenths 79)
  /\ overall_risk_score fractional_clauses_swapped = JFloat (tenths 80)
  /\ aggregate (JObj [("clauses", JArr fractional_clauses)])
     = Ok (JObj [("clauses", JArr fractional_clauses);
                 ("overall_risk_score", JFloat (tenths 79))])
  /\ aggregate (JObj [("clauses", JArr fractional_clauses_swapped)])
     = Ok (JObj [("clauses", JArr fractional_clauses_swapped);
                 ("overall_risk_score", JFloat (tenths 80))])
  /\ Permutation large_clauses large_clauses_reversed
  /\ overall_risk_score large_clauses = JFloat (FFin 6666666666666667 (-1))
  /\ overall_risk_score large_clauses_reversed = JFloat (FFin 1666666666666667 1).
Proof.
  split; [|split; [|split; [|split; [|split; [|split; [|split]]]]]];
    try (vm_compute; reflexivity).
  - apply perm_skip, perm_swap.
  - unfold large_clauses, large_clauses_reversed.
    eapply perm_trans; [apply perm_swap|].
    eapply perm_trans; [apply perm_skip, perm_swap|].
    apply perm_swap.
Qed.

(** C9, amended.  For clauses whose scores are integers (or absent, or
    not numbers) and whose sum of score * weight stays below 2^52, the
    score computed by the aggregation does not depend on the order of the
    clauses: two results whose clause arrays are reorderings of each other
    get the same ["overall_risk_score"], and computing it again gives the
    same value. *)
Theorem integer_scores_order_invariant
    (fields1 fields2 : list (string * json)) (clauses1 clauses2 : list json) :
  Permutation clauses1 clauses2 ->
  forallb integer_scored clauses1 = true ->
  doubled_total clauses1 < 2 ^ 53 ->
  from_option id (JArr []) (dict_get fields1 "clauses") = JArr clauses1 ->
  from_option id (JArr []) (dict_get fields2 "clauses") = JArr clauses2 ->
  exists score,
    aggregate (JObj fields1)
    = Ok (JObj (dict_set fields1 "overall_risk_score" score))
    /\ aggregate (JObj fields2)
       = Ok (JObj (dict_set fields2 "overall_risk_score" score))
    /\ score = overall_risk_score clauses1
    /\ score = overall_risk_score clauses2.
Proof.
  intros Hperm Hall Hbound Hget1 Hget2.
  pose proof (forallb_permutation _ _ _ Hperm Hall) as Hall2.
  assert (Htotal : doubled_total clauses2 = doubled_total clauses1).
  { unfold doubled_total. symmetry. apply sum_permutation.
    now apply Permutation_map. }
  assert (Hweights : doubled_weight_total clauses2 = doubled_weight_total clauses1).
  { unfold doubled_weight_total. symmetry. apply sum_permutation.
    now apply Permutation_map. }
  assert (Hsame : overall_risk_score clauses2 = overall_risk_score clauses1).
  { rewrite (overall_from_totals clauses1 Hall Hbound).
    rewrite (overall_from_totals clauses2 Hall2) by (rewrite Htotal; exact Hbound).
    now rewrite Htotal, Hweights. }
  exists (overall_risk_score clauses1). split; [|split; [|split]].
  - apply aggregate_ok; [exact Hget1|].
    apply forallb_forall. intros c Hc.
    rewrite forallb_forall in Hall. now apply integer_scored_ok, Hall.
  - rewrite <- Hsame. apply aggregate_ok; [exact Hget2|].
    apply forallb_forall. intros c Hc.
    rewrite forallb_forall in Hall2. now apply integer_scored_ok, Hall2.
  - reflexivity.
  - now rewrite Hsame.
Qed.

(** The theorem at the two-clause example and its reversal. *)
Lemma integer_scores_order_invariant_witness :
  exists score,
    aggregate (JObj [("clauses", JArr [clause "Liability Cap" 8;
                                       clause "Force Majeure" 2])])
    = Ok (JObj (dict_set [("clauses", JArr [clause "Liability Cap" 8;
                                            clause "Force Majeure" 2])]
                  "overall_risk_score" score))
    /\ aggregate (JObj [("clauses", JArr [clause "Force Majeure" 2;
                                          clause "Liability Cap" 8])])
       = Ok (JObj (dict_set [("clauses", JArr [clause "Force Majeure" 2;
                                               clause "Liability Cap" 8])]
                     "overall_risk_score" score)).
Proof.
  destruct (integer_scores_order_invariant
              [("clauses", JArr [clause "Liability Cap" 8; clause "Force Majeure" 2])]
              [("clauses", JArr [clause "Force Majeure" 2; clause "Liability Cap" 8])]
              [clause "Liability Cap" 8; clause "Force Majeure" 2]
              [clause "Force Majeure" 2; clause "Liability Cap" 8])
    as [score [H1 [H2 _]]].
  - apply perm_swap.
  - reflexivity.
  - vm_compute. reflexivity.
  - reflexivity.
  - reflexivity.
  - exists score. split; assumption.
Defined.

End Order.

(** * Further properties of the code *)

(** ** Fenced responses *)

Module Fences.
Import Analysis StrFacts Notions.

Lemma startswith_self_app (p r : string) : startswith p (p +++ r) = true.
Proof.
  induction p as [|c p IH]; simpl.
  - reflexivity.
  - now rewrite Ascii.eqb_refl.
Qed.

Lemma len_append (a b : string) : len (a +++ b) = len a + len b.
Proof. unfold len. rewrite length_append. lia. Qed.

Lemma len_nonneg (s : string) : 0 <= len s.
Proof. unfold len. lia. Qed.

(** A marker that begins with [c] is first found right after a text
    that lacks [c]. *)
Lemma find_aux_after_lacking (c : ascii) (sub' pre rest : string) (i : Z) :
  lacks c pre = true ->
  find_aux (String c sub') (pre +++ String c sub' +++ rest) i = i + len pre.
Proof.
  revert i. induction pre as [|a pre IH]; intros i Hl.
  - change ("" +++ String c sub' +++ rest) with (String c sub' +++ rest).
    unfold find_aux.
    destruct (String c sub' +++ rest) eqn:E; [discriminate|].
    rewrite <- E, startswith_self_app. unfold len. simpl. lia.
  - simpl in Hl. apply andb_true_iff in Hl as [Ha Hl].
    change (String a pre +++ String c sub' +++ rest)
      with (String a (pre +++ String c sub' +++ rest)).
    cbn [find_aux startswith].
    rewrite Ascii.eqb_sym. apply negb_true_iff in Ha. rewrite Ha.
    rewrite IH by exact Hl. unfold len. simpl String.length. lia.
Qed.

Lemma rfind_aux_lacking (post : string) (i : Z) :
  lacks tick post = true -> rfind_aux "```" post i = -1.
Proof.
  revert i. induction post as [|a post IH]; intros i Hl.
  - reflexivity.
  - simpl in Hl. apply andb_true_iff in Hl as [Ha Hl].
    cbn [rfind_aux]. rewrite IH by exact Hl. simpl (-1 =? -1).
    change "```" with (String tick "``"). cbn [startswith].
    apply negb_true_iff in Ha.
    rewrite Ascii.eqb_sym, Ha. reflexivity.
Qed.

Lemma startswith_fence_short (k : string) (post : string) :
  lacks tick post = true -> (k = "`" \/ k = "``") ->
  startswith "```" (k +++ post) = false.
Proof.
  intros Hl [-> | ->]; destruct post as [|a post]; try reflexivity;
    simpl in Hl; apply andb_true_iff in Hl as [Ha _];
    apply negb_true_iff in Ha.
  - change ("`" +++ String a post) with (String tick (String a post)).
    change "```" with (String tick (String tick "`")).
    cbn [startswith]. rewrite Ascii.eqb_refl, Ascii.eqb_sym, Ha. reflexivity.
  - change ("``" +++ String a post)
      with (String tick (String tick (String a post))).
    change "```" with (String tick (String tick (String tick ""))).
    cbn [startswith]. rewrite !Ascii.eqb_refl, Ascii.eqb_sym, Ha. reflexivity.
Qed.

(** The last fence marker of a text is the one that only tick-free text
    follows. *)
Lemma rfind_aux_last_fence (before post : string) (i : Z) :
  0 <= i -> lacks tick post = true ->
  rfind_aux "```" (before +++ "```" +++ post) i = i + len before.
Proof.
  intros Hi Hl. revert i Hi. induction before as [|a before IH]; intros i Hi.
  - change ("" +++ "```" +++ post) with (String tick ("``" +++ post)).
    cbn [rfind_aux].
    change ("``" +++ post) with (String tick ("`" +++ post)).
    cbn [rfind_aux].
    change ("`" +++ post) with (String tick post).
    cbn [rfind_aux].
    rewrite (rfind_aux_lacking post _ Hl). simpl (-1 =? -1).
    change (String tick post) with ("`" +++ post).
    rewrite (startswith_fence_short "`" post Hl) by auto.
    simpl (-1 =? -1).
    change (String tick ("`" +++ post)) with ("``" +++ post).
    rewrite (startswith_fence_short "``" post Hl) by auto.
    simpl (-1 =? -1).
    change (String tick ("``" +++ post)) with ("```" +++ post).
    rewrite startswith_self_app. unfold len. simpl. lia.
  - change ((String a before) +++ "```" +++ post)
      with (String a (before +++ "```" +++ post)).
    cbn [rfind_aux]. rewrite IH by lia.
    pose proof (len_nonneg before).
    replace (i + 1 + len before =? -1) with false
      by (symmetry; apply Z.eqb_neq; lia).
    unfold len. simpl String.length. lia.
Qed.

(** [s[a:b]] when [s] is [x +++ y +++ z] and the bounds are the ends of
    [y]. *)
Lemma slice_middle (x y z : string) :
  slice (x +++ y +++ z) (len x) (len x + len y) = y.
Proof.
  unfold slice, clamp. rewrite !len_append.
  pose proof (len_nonneg x). pose proof (len_nonneg y). pose proof (len_nonneg z).
  replace (len x <? 0) with false by (symmetry; apply Z.ltb_ge; lia).
  replace (len x + len y <? 0) with false by (symmetry; apply Z.ltb_ge; lia).
  rewrite !Z.min_l by lia.
  replace (len x + len y - len x) with (len y) by lia.
  unfold len. rewrite !Nat2Z.id.
  assert (Hdrop : forall a b : string, drop (String.length a) (a +++ b) = b)
    by (induction a; simpl; auto).
  rewrite Hdrop.
  rewrite <- (Nat.add_0_r (String.length y)), take_app_plus.
  assert (Hnil : forall t : string, t +++ "" = t)
    by (induction t; simpl; congruence).
  destruct z; simpl; apply Hnil.
Qed.

Lemma str_in_found (sub s : string) (k : Z) :
  0 <= k -> find sub s = k -> str_in sub s = true.
Proof.
  intros Hk Hf. unfold str_in. rewrite Hf.
  apply negb_true_iff, Z.eqb_neq. lia.
Qed.

Lemma tick_json_fence_parts :
  "```json" = String tick "``json" /\ "```" = String tick "``".
Proof. split; reflexivity. Qed.

(** X1.  A response that holds a [```json] fence is reduced to the
    stripped text between the opening marker and the last closing marker,
    whatever tick-free prose comes before the fence or after it. *)
Theorem json_fence_is_unwrapped (pre body post : string) :
  lacks tick pre = true ->
  lacks tick post = true ->
  strip_fences (pre +++ "```json" +++ body +++ "```" +++ post) = strip body.
Proof.
  intros Hpre Hpost.
  set (text := pre +++ "```json" +++ body +++ "```" +++ post).
  assert (Hfind : find "```json" text = len pre).
  { unfold find, text.
    change "```json" with (String tick "``json").
    rewrite find_aux_after_lacking by exact Hpre. lia. }
  assert (Hrfind : rfind "```" text = len pre + 7 + len body).
  { unfold rfind, text.
    replace (pre +++ "```json" +++ body +++ "```" +++ post)
      with ((pre +++ "```json" +++ body) +++ "```" +++ post)
      by (now rewrite !append_assoc).
    rewrite rfind_aux_last_fence by (auto; lia).
    rewrite !len_append. change (len "```json") with 7. lia. }
  unfold strip_fences.
  rewrite (str_in_found _ _ _ (len_nonneg pre) Hfind).
  fold text. rewrite Hfind, Hrfind. f_equal.
  unfold text.
  replace (pre +++ "```json" +++ body +++ "```" +++ post)
    with ((pre +++ "```json") +++ body +++ "```" +++ post)
    by (now rewrite !append_assoc).
  replace (len pre + 7) with (len (pre +++ "```json"))
    by (rewrite len_append; reflexivity).
  replace (len (pre +++ "```json") + len body)
    with (len (pre +++ "```json") + len body) by lia.
  apply slice_middle.
Qed.

Lemma json_fence_is_unwrapped_witness :
  strip_fences ("Here it is: " +++ "```json" +++ (nl +++ "{}" +++ nl) +++ "```"
                +++ " Done.") = "{}".
Proof.
  rewrite (json_fence_is_unwrapped "Here it is: " (nl +++ "{}" +++ nl) " Done.");
    reflexivity.
Defined.

(** X2.  A response that holds a fence without the [json] tag, and no
    [```json] marker anywhere, is reduced the same way: to the stripped
    text between the first marker and the last one. *)
Theorem plain_fence_is_unwrapped (pre body post : string) :
  lacks tick pre = true ->
  lacks tick post = true ->
  str_in "```json" (pre +++ "```" +++ body +++ "```" +++ post) = false ->
  strip_fences (pre +++ "```" +++ body +++ "```" +++ post) = strip body.
Proof.
  intros Hpre Hpost Hnojson.
  set (text := pre +++ "```" +++ body +++ "```" +++ post) in *.
  assert (Hfind : find "```" text = len pre).
  { unfold find, text.
    change "```" with (String tick "``") at 1 2.
    rewrite find_aux_after_lacking by exact Hpre. lia. }
  assert (Hrfind : rfind "```" text = len pre + 3 + len body).
  { unfold rfind, text.
    replace (pre +++ "```" +++ body +++ "```" +++ post)
      with ((pre +++ "```" +++ body) +++ "```" +++ post)
      by (now rewrite !append_assoc).
    rewrite rfind_aux_last_fence by (auto; lia).
    rewrite !len_append. change (len "```") with 3. lia. }
  unfold strip_fences. fold text. rewrite Hnojson.
  rewrite (str_in_found _ _ _ (len_nonneg pre) Hfind).
  rewrite Hfind, Hrfind. f_equal.
  unfold text.
  replace (pre +++ "```" +++ body +++ "```" +++ post)
    with ((pre +++ "```") +++ body +++ "```" +++ post)
    by (now rewrite !append_assoc).
  replace (len pre + 3) with (len (pre +++ "```"))
    by (rewrite len_append; reflexivity).
  apply slice_middle.
Qed.

Lemma plain_fence_is_unwrapped_witness :
  strip_fences ("" +++ "```" +++ (nl +++ "{}" +++ nl) +++ "```" +++ "") = "{}".
Proof.
  rewrite (plain_fence_is_unwrapped "" (nl +++ "{}" +++ nl) ""); reflexivity.
Defined.

End Fences.

(** ** Further properties of the aggregation and of the chain *)

Module AggregationMore.
Import Analysis RiskSpec ExactSpec AggregationFacts FloatFacts OrderFacts Notions StrFacts.

Lemma dict_set_set (fields : list (string * json)) (key : string) (v w : json) :
  dict_set (dict_set fields key v) key w = dict_set fields key w.
Proof.
  induction fields as [|[k x] rest IH]; simpl.
  - now rewrite String.eqb_refl.
  - destruct (String.eqb k key) eqn:E; simpl; rewrite E; [reflexivity|].
    now rewrite IH.
Qed.

(** What [aggregate] returns when it returns: the parsed object with the
    score field set to null or to a float. *)
Lemma aggregate_returns (result r : json) :
  aggregate result = Ok r ->
  exists fields v,
    result = JObj fields
    /\ r = JObj (dict_set fields "overall_risk_score" v)
    /\ (v = JNull \/ exists x, v = JFloat x).
Proof.
  unfold aggregate. destruct result as [| | | | | |fields]; try discriminate.
  cbn [py_get bind].
  destruct (py_iter _) as [clauses|e]; [|discriminate]. cbn [bind].
  destruct (clause_loop clauses _) as [totals|e]; [|discriminate]. cbn [bind].
  destruct (fpos (snd totals)).
  - destruct (fdiv _ _) as [q|]; [|discriminate].
    intros H. inversion H. exists fields, (JFloat (round1 q)). eauto.
  - intros H. inversion H. exists fields, JNull. eauto.
Qed.

(** X3.  Whatever the model answers and however the decoder behaves, a
    result that [analyze_contract] returns is a dict with the key
    ["overall_risk_score"], holding null or a float. *)
Theorem returned_result_has_score
    (format_prompt : string -> string) (llm_invoke : string -> option string)
    (json_loads : string -> option json) (contract_text : string) (r : json) :
  snd (analyze_contract format_prompt llm_invoke json_loads contract_text)
  = Returned r ->
  exists fields,
    r = JObj fields
    /\ (dict_get fields "overall_risk_score" = Some JNull
        \/ exists x, dict_get fields "overall_risk_score" = Some (JFloat x)).
Proof.
  unfold analyze_contract, analyze_text.
  destruct (llm_invoke _) as [content|]; [|discriminate].
  destruct (String.eqb (sanitize content) "").
  - simpl. intros H. inversion H. eexists. split; [reflexivity|]. now left.
  - destruct (json_loads _) as [result|]; simpl.
    + destruct (aggregate result) as [r'|e] eqn:E; [|discriminate].
      intros H. inversion H. subst r'.
      destruct (aggregate_returns _ _ E) as [fields [v [_ [-> Hv]]]].
      eexists. split; [reflexivity|]. rewrite dict_get_set_same.
      destruct Hv as [->|[x ->]]; eauto.
    + intros H. inversion H. eexists. split; [reflexivity|]. now left.
Qed.

Lemma returned_result_has_score_witness :
  exists fields,
    parse_error_result = JObj fields
    /\ (dict_get fields "overall_risk_score" = Some JNull
        \/ exists x, dict_get fields "overall_risk_score" = Some (JFloat x)).
Proof.
  apply (returned_result_has_score (fun t => t) (fun _ => Some "not json at all")
           Decoder.json_loads "contract" parse_error_result).
  reflexivity.
Defined.

(** X4.  Aggregating a result that has been aggregated changes nothing:
    the score is computed from the clauses alone, and the field it is
    written to is not one the loop reads. *)
Theorem aggregate_idempotent (result r : json) :
  aggregate result = Ok r -> aggregate r = Ok r.
Proof.
  intros H. destruct (aggregate_returns _ _ H) as [fields [v [-> [-> _]]]].
  revert H. unfold aggregate. cbn [py_get bind].
  rewrite dict_get_set_other by discriminate.
  destruct (py_iter _) as [clauses|e]; [|discriminate]. cbn [bind].
  destruct (clause_loop clauses _) as [totals|e]; [|discriminate]. cbn [bind].
  destruct (fpos (snd totals)).
  - destruct (fdiv _ _) as [q|]; [|discriminate].
    intros H. inversion H as [Hv]. rewrite dict_set_set.
    apply (f_equal (fun l => dict_get l "overall_risk_score")) in Hv.
    rewrite !dict_get_set_same in Hv. inversion Hv. reflexivity.
  - intros H. inversion H as [Hv]. rewrite dict_set_set.
    apply (f_equal (fun l => dict_get l "overall_risk_score")) in Hv.
    rewrite !dict_get_set_same in Hv. inversion Hv. reflexivity.
Qed.

Lemma aggregate_idempotent_witness :
  aggregate (JObj [("clauses", JArr [clause "Liability Cap" 8]);
                   ("overall_risk_score", JFloat (FFin 1 3))])
  = Ok (JObj [("clauses", JArr [clause "Liability Cap" 8]);
              ("overall_risk_score", JFloat (FFin 1 3))]).
Proof.
  apply (aggregate_idempotent (JObj [("clauses", JArr [clause "Liability Cap" 8])])).
  vm_compute. reflexivity.
Defined.

Lemma clause_step_malformed (acc : pyfloat * pyfloat) (c : json) :
  malformed c = true -> clause_step acc c = Err AttributeError.
Proof.
  unfold malformed, clause_step.
  destruct c as [| | | | | |fields]; try reflexivity.
  cbn [py_get bind].
  destruct (dict_get fields "clause_name") as [[| | | | | |]|];
    try discriminate; reflexivity.
Qed.

Lemma clause_loop_malformed (clauses : list json) (acc : pyfloat * pyfloat) :
  existsb malformed clauses = true ->
  exists e, clause_loop clauses acc = Err e.
Proof.
  revert acc. induction clauses as [|c rest IH]; intros acc H; [discriminate|].
  simpl in H. cbn [clause_loop].
  destruct (clause_step acc c) as [acc'|e] eqn:E; [|eauto].
  cbn [bind]. apply orb_true_iff in H as [H|H].
  - rewrite (clause_step_malformed acc c H) in E. discriminate.
  - now apply IH.
Qed.

(** X5.  One clause that is not an object, or whose name is present and
    not a string, makes the whole analysis raise: no score is computed from
    the other clauses and nothing is returned. *)
Theorem malformed_clause_raises
    (format_prompt : string -> string) (llm_invoke : string -> option string)
    (json_loads : string -> option json) (contract_text content : string)
    (fields : list (string * json)) (clauses : list json) :
  llm_invoke (format_prompt contract_text) = Some content ->
  sanitize content <> "" ->
  json_loads (fix_truncated (sanitize content)) = Some (JObj fields) ->
  dict_get fields "clauses" = Some (JArr clauses) ->
  existsb malformed clauses = true ->
  exists e,
    aggregate (JObj fields) = Err e
    /\ snd (analyze_contract format_prompt llm_invoke json_loads contract_text)
       = Raised e.
Proof.
  intros Hllm Hne Hloads Hget Hbad.
  destruct (clause_loop_malformed clauses (FFin 0 0, FFin 0 0) Hbad) as [e He].
  assert (Hagg : aggregate (JObj fields) = Err e).
  { unfold aggregate. cbn [py_get bind]. rewrite Hget.
    cbn [from_option id py_iter bind]. now rewrite He. }
  exists e. split; [exact Hagg|].
  unfold analyze_contract, analyze_text. rewrite Hllm.
  destruct (String.eqb (sanitize content) "") eqn:E.
  - apply String.eqb_eq in E. contradiction.
  - rewrite Hloads. simpl. now rewrite Hagg.
Qed.

Lemma malformed_clause_raises_witness :
  snd (analyze_contract (fun t => t) (fun _ => Some response_with_null_clause)
         Decoder.json_loads "contract")
  = Raised AttributeError.
Proof.
  destruct (malformed_clause_raises (fun t => t)
              (fun _ => Some response_with_null_clause) Decoder.json_loads
              "contract" response_with_null_clause
              [("clauses", JArr [JNull])] [JNull])
    as [e [Hagg Hrun]];
    [reflexivity | discriminate | reflexivity | reflexivity | reflexivity |].
  vm_compute in Hagg. inversion Hagg. subst e. exact Hrun.
Defined.

End AggregationMore.

(** ** When the score is null, and the repair applied twice *)

Module ScorePresence.
Import Analysis RiskSpec ExactSpec AggregationFacts FloatFacts OrderFacts Notions StrFacts.

Lemma fpos_halves (t : Z) :
  0 <= t < 2 ^ 53 -> fpos (halves t) = (0 <? t).
Proof.
  intros Ht. unfold halves.
  destruct (canon_form t (-1)) as [m [e [H [He [Hm [Hv Hpos]]]]]]; [lia | lia |].
  rewrite H. simpl. destruct (0 <? t) eqn:E.
  - apply Z.ltb_lt in E. apply Z.ltb_lt. auto.
  - apply Z.ltb_ge in E. assert (Ht0 : t = 0) by lia. rewrite Ht0 in Hv.
    apply Z.ltb_ge.
    assert (Hp : 0 < 2 ^ (e - -1)) by (apply Z.pow_pos_nonneg; lia).
    symmetry in Hv. apply Z.eq_mul_0 in Hv as [Hv|Hv]; lia.
Qed.

(** The sum of up to 2^50 table weights is exact. *)
Lemma weights_exact (qs : list (pyfloat * pyfloat)) (d : Z) :
  Forall (fun sw => exists w, snd sw = halves w /\ 2 <= w <= 6) qs ->
  0 <= d -> d + 6 * Z.of_nat (length qs) < 2 ^ 53 ->
  exists t,
    fold_left fadd (map snd qs) (halves d) = halves t
    /\ d + 2 * Z.of_nat (length qs) <= t <= d + 6 * Z.of_nat (length qs).
Proof.
  intros Hall. revert d. induction Hall as [|sw qs [w [Hw Hb]] _ IH]; intros d Hd Hbound.
  - exists d. simpl. split; [reflexivity | lia].
  - cbn [map fold_left]. rewrite Hw.
    change (length (sw :: qs)) with (S (length qs)) in *.
    rewrite Nat2Z.inj_succ in *.
    rewrite fadd_halves by lia.
    destruct (IH (d + w)) as [t [Ht Hr]]; [lia | lia |].
    exists t. split; [exact Ht | lia].
Qed.

Lemma qualifying_weights (clauses : list json) :
  Forall (fun sw : pyfloat * pyfloat => exists w, snd sw = halves w /\ 2 <= w <= 6)
    (qualifying clauses)
  /\ (length (qualifying clauses) <= length clauses)%nat
  /\ (qualifying clauses = [] <->
      Forall (fun c => positive_score c = None) clauses).
Proof.
  unfold qualifying. induction clauses as [|c rest [IH1 [IH2 IH3]]].
  - simpl. repeat split; auto.
  - cbn [omap list_omap]. destruct (positive_score c) as [s|] eqn:E.
    + split; [|split].
      * constructor; [|exact IH1].
        exists (doubled_weight (name_of c)). simpl.
        split; [apply clause_weight_halves | apply doubled_weight_bounds].
      * simpl. lia.
      * split; [discriminate|]. intros H. inversion H. congruence.
    + split; [exact IH1|]. split; [simpl; lia|].
      rewrite IH3. split.
      * intros H. constructor; assumption.
      * intros H. now inversion H.
Qed.

(** X6.  On well-shaped clauses (fewer than 2^50 of them) the score is
    null exactly when no clause has a numeric score above zero; as soon as
    one clause has such a score, the result carries a float. *)
Theorem score_is_null_iff_no_positive_score
    (fields : list (string * json)) (clauses : list json) :
  from_option id (JArr []) (dict_get fields "clauses") = JArr clauses ->
  forallb clause_ok clauses = true ->
  Z.of_nat (length clauses) < 2 ^ 50 ->
  exists v,
    aggregate (JObj fields)
    = Ok (JObj (dict_set fields "overall_risk_score" v))
    /\ (v = JNull <-> Forall (fun c => positive_score c = None) clauses)
    /\ (v <> JNull -> exists x, v = JFloat x).
Proof.
  intros Hget Hok Hlen.
  exists (overall_risk_score clauses). split; [now apply aggregate_ok|].
  destruct (qualifying_weights clauses) as [Hw [Hl Hnil]].
  destruct (weights_exact (qualifying clauses) 0 Hw) as [t [Ht Hr]]; [lia | lia |].
  unfold overall_risk_score, denominator.
  change (FFin 0 0) with (halves 0). rewrite Ht.
  rewrite fpos_halves by lia.
  destruct (0 <? t) eqn:E.
  - apply Z.ltb_lt in E. split.
    + split; [discriminate|]. intros H. apply Hnil in H.
      rewrite H in Hr. simpl in Hr. lia.
    + eauto.
  - apply Z.ltb_ge in E. split.
    + split; [|reflexivity]. intros _. apply Hnil.
      destruct (qualifying clauses); [reflexivity|]. simpl length in Hr. lia.
    + intros H. contradiction.
Qed.

Lemma score_is_null_iff_no_positive_score_witness :
  exists v,
    aggregate (JObj [("clauses", JArr [clause "Fees" 0])])
    = Ok (JObj (dict_set [("clauses", JArr [clause "Fees" 0])]
                  "overall_risk_score" v))
    /\ (v = JNull <->
        Forall (fun c => positive_score c = None) [clause "Fees" 0]).
Proof.
  destruct (score_is_null_iff_no_positive_score
              [("clauses", JArr [clause "Fees" 0])] [clause "Fees" 0]
              eq_refl eq_refl) as [v [H1 [H2 _]]].
  - vm_compute. reflexivity.
  - exists v. split; assumption.
Defined.

(** X7.  The truncation fix leaves a text unchanged or makes it end with
    a closing brace, and applying it to its own result changes nothing. *)
Theorem fix_truncated_idempotent (text : string) :
  (fix_truncated text = text \/ endswith "}" (fix_truncated text) = true)
  /\ fix_truncated (fix_truncated text) = fix_truncated text.
Proof.
  assert (H : fix_truncated text = text
              \/ endswith "}" (fix_truncated text) = true).
  { unfold fix_truncated.
    destruct (endswith "}" text); [now left|]. simpl negb. cbv iota.
    destruct (rfind "    }" text =? -1); [now left|]. simpl negb. cbv iota.
    destruct (rfind_from "  ]" text (rfind "    }" text) =? -1); [now left|].
    simpl negb. cbv iota. right.
    destruct Repair.closing_fragment_ends_with_brace as [body ->].
    rewrite <- append_assoc. apply endswith_app. }
  split; [exact H|].
  destruct H as [H|H].
  - now rewrite H.
  - unfold fix_truncated at 1. now rewrite H.
Qed.

End ScorePresence.

(** ** Rounding between integer bounds *)

Module RoundingFacts.
Import FloatFacts.

Lemma rne_div_bounds (N D A B : Z) :
  0 < D -> A * D <= N -> N <= B * D -> A <= rne_div N D <= B.
Proof.
  intros HD HA HB. unfold rne_div.
  pose proof (Z.div_mod N D ltac:(lia)) as Hdm.
  pose proof (Z.mod_pos_bound N D HD) as Hr.
  set (q := N / D) in *. set (r := N mod D) in *.
  assert (Hq1 : A <= q) by nia.
  assert (Hq2 : q <= B) by nia.
  assert (Hq3 : 0 < r -> q + 1 <= B) by (intros; nia).
  destruct (2 * r <? D) eqn:E1; [lia|].
  apply Z.ltb_ge in E1.
  destruct (D <? 2 * r); [lia|].
  destruct (Z.even q); lia.
Qed.

(** The computed binary logarithm is a lower bound. *)
Lemma lg2q_lower (n d : Z) :
  0 < n -> 0 < d ->
  (0 <= lg2q n d -> d * 2 ^ lg2q n d <= n)
  /\ (lg2q n d < 0 -> d <= n * 2 ^ (- lg2q n d)).
Proof.
  intros Hn Hd. unfold lg2q, below.
  pose proof (Z.log2_spec n Hn) as [Hn1 Hn2].
  pose proof (Z.log2_spec d Hd) as [Hd1 Hd2].
  pose proof (Z.log2_nonneg n) as Hln. pose proof (Z.log2_nonneg d) as Hld.
  set (ln := Z.log2 n) in *. set (ld := Z.log2 d) in *.
  rewrite Z.pow_succ_r in Hn2, Hd2 by lia.
  destruct (0 <=? ln - ld) eqn:El.
  - apply Z.leb_le in El.
    destruct (n <? d * 2 ^ (ln - ld)) eqn:Eb.
    + (* L = l - 1 *)
      split; intros HL.
      * assert (Hp : 2 ^ ln = 2 ^ ld * 2 ^ (ln - ld - 1) * 2).
        { replace ln with (ld + (ln - ld - 1) + 1) at 1 by lia.
          rewrite !Z.pow_add_r by lia. now rewrite Z.pow_1_r. }
        assert (0 < 2 ^ (ln - ld - 1)) by (apply Z.pow_pos_nonneg; lia).
        nia.
      * assert (ln - ld = 0) by lia.
        replace (- (ln - ld - 1)) with 1 by lia.
        assert (2 ^ ln = 2 ^ ld) by (f_equal; lia). rewrite Z.pow_1_r. lia.
    + apply Z.ltb_ge in Eb. split; intros HL; [exact Eb | lia].
  - apply Z.leb_gt in El.
    destruct (n * 2 ^ (- (ln - ld)) <? d) eqn:Eb.
    + split; intros HL; [lia|].
      assert (Hp : 2 ^ ld * 2 = 2 ^ ln * 2 ^ (- (ln - ld - 1))).
      { rewrite <- Z.pow_add_r by lia.
        replace (ln + - (ln - ld - 1)) with (ld + 1) by lia.
        rewrite Z.pow_add_r by lia. now rewrite Z.pow_1_r. }
      assert (0 < 2 ^ (- (ln - ld - 1))) by (apply Z.pow_pos_nonneg; lia).
      nia.
    + apply Z.ltb_ge in Eb. split; intros HL; [lia | exact Eb].
Qed.

Lemma pow2_split (x y : Z) : 0 <= x -> 0 <= y -> 2 ^ (x + y) = 2 ^ x * 2 ^ y.
Proof. intros. now apply Z.pow_add_r. Qed.

Lemma pow2_lt_exponent (x y : Z) : 0 <= x -> 0 <= y -> 2 ^ x < 2 ^ y -> x < y.
Proof. intros Hx Hy H. now apply Z.pow_lt_mono_r_iff in H. Qed.

(** The exponent chosen for a quotient below 2^53 is not positive. *)
Lemma exponent_nonpositive (n d a b hi : Z) :
  0 < n -> 0 < d -> 0 <= a -> 0 <= b -> hi < 2 ^ 53 ->
  n * 2 ^ a <= hi * (d * 2 ^ b) ->
  lg2q n d + (a - b) - 52 <= 0.
Proof.
  intros Hn Hd Ha Hb Hhi Hup.
  destruct (lg2q_lower n d Hn Hd) as [H1 H2].
  set (L := lg2q n d) in *.
  assert (Hpa : 0 < 2 ^ a) by (apply Z.pow_pos_nonneg; lia).
  assert (Hpb : 0 < 2 ^ b) by (apply Z.pow_pos_nonneg; lia).
  destruct (Z_lt_le_dec L 0) as [HL|HL].
  - specialize (H2 HL).
    assert (Hp : 0 < 2 ^ (- L)) by (apply Z.pow_pos_nonneg; lia).
    (* d * 2^a <= n * 2^-L * 2^a < 2^53 * d * 2^b * 2^-L *)
    assert (Hlt : 2 ^ a < 2 ^ (53 + b + - L)).
    { rewrite !pow2_split by lia.
      assert (d * 2 ^ a < 2 ^ 53 * 2 ^ b * 2 ^ (- L) * d) by nia.
      nia. }
    apply pow2_lt_exponent in Hlt; lia.
  - specialize (H1 HL).
    assert (Hp : 0 < 2 ^ L) by (apply Z.pow_pos_nonneg; lia).
    assert (Hlt : 2 ^ (L + a) < 2 ^ (53 + b)).
    { rewrite !pow2_split by lia.
      assert (d * (2 ^ L * 2 ^ a) < d * (2 ^ 53 * 2 ^ b)) by nia.
      nia. }
    apply pow2_lt_exponent in Hlt; lia.
Qed.

(** A quotient that lies between two integers is rounded to a float that
    lies between them. *)
Lemma round_pos_between (n d a b lo hi : Z) :
  0 < n -> 0 < d -> 0 <= a -> 0 <= b -> 1 <= lo -> hi < 2 ^ 53 ->
  lo * (d * 2 ^ b) <= n * 2 ^ a ->
  n * 2 ^ a <= hi * (d * 2 ^ b) ->
  exists q e,
    round_pos n d (a - b) = canon q e
    /\ e <= 0 /\ lo * 2 ^ (- e) <= q <= hi * 2 ^ (- e).
Proof.
  intros Hn Hd Ha Hb Hlo Hhi Hlow Hup. unfold round_pos.
  pose proof (exponent_nonpositive n d a b hi Hn Hd Ha Hb Hhi Hup) as Hexp.
  set (e := Z.max (lg2q n d + (a - b) - 52) (-1074)).
  assert (He : e <= 0) by (unfold e; lia).
  assert (Hpa : 0 < 2 ^ a) by (apply Z.pow_pos_nonneg; lia).
  assert (Hpb : 0 < 2 ^ b) by (apply Z.pow_pos_nonneg; lia).
  assert (Hpe : 0 < 2 ^ (- e)) by (apply Z.pow_pos_nonneg; lia).
  set (q := if 0 <=? a - b - e
            then rne_div (n * 2 ^ (a - b - e)) d
            else rne_div n (d * 2 ^ (- (a - b - e)))).
  assert (Hq : lo * 2 ^ (- e) <= q <= hi * 2 ^ (- e)).
  { unfold q. destruct (0 <=? a - b - e) eqn:Es.
    - apply Z.leb_le in Es.
      assert (Hps : 0 < 2 ^ (a - b - e)) by (apply Z.pow_pos_nonneg; lia).
      assert (Heq : 2 ^ (a - b - e) * 2 ^ b = 2 ^ a * 2 ^ (- e)).
      { rewrite <- !pow2_split by lia. f_equal. lia. }
      apply rne_div_bounds; [lia | |].
      + (* lo * 2^-e * d <= n * 2^s : multiply both sides by 2^b *)
        apply Z.mul_le_mono_pos_r with (p := 2 ^ b); [lia|]. nia.
      + apply Z.mul_le_mono_pos_r with (p := 2 ^ b); [lia|]. nia.
    - apply Z.leb_gt in Es.
      assert (Hps : 0 < 2 ^ (- (a - b - e))) by (apply Z.pow_pos_nonneg; lia).
      assert (Heq : 2 ^ (- (a - b - e)) * 2 ^ a * 2 ^ (- e) = 2 ^ b).
      { rewrite <- !pow2_split by lia. f_equal. lia. }
      apply rne_div_bounds; [nia | |].
      + apply Z.mul_le_mono_pos_r with (p := 2 ^ a); [lia|]. nia.
      + apply Z.mul_le_mono_pos_r with (p := 2 ^ a); [lia|]. nia. }
  exists q, e. fold q.
  assert (Hno : (0 <=? e) && (2 ^ 1024 <=? q * 2 ^ e) = false).
  { destruct (0 <=? e) eqn:E; [|reflexivity]. simpl.
    apply Z.leb_le in E. assert (e = 0) as -> by lia.
    apply Z.leb_gt. simpl in Hq. rewrite Z.pow_0_r, Z.mul_1_r.
    apply Z.le_lt_trans with (2 ^ 53); [lia|].
    apply Z.pow_lt_mono_r; lia. }
  rewrite Hno. auto.
Qed.

(** Rounding such a float to one decimal gives a number of tenths between
    the same bounds. *)
Lemma round1_between (q e lo hi : Z) :
  e <= 0 -> 1 <= lo -> lo * 2 ^ (- e) <= q <= hi * 2 ^ (- e) ->
  exists t, round1 (canon q e) = tenths t /\ 10 * lo <= t <= 10 * hi.
Proof.
  intros He Hlo [Hq1 Hq2].
  assert (Hpe : 0 < 2 ^ (- e)) by (apply Z.pow_pos_nonneg; lia).
  assert (Hqpos : 0 < q) by nia.
  destruct (canon_spec q e ltac:(lia)) as [m [k [Hcan [Hk [Hv Hm]]]]].
  specialize (Hm Hqpos).
  replace (q =? 0) with false in Hcan by (symmetry; apply Z.eqb_neq; lia).
  rewrite Hcan. unfold round1.
  replace (m <? 0) with false by (symmetry; apply Z.ltb_ge; lia).
  rewrite Z.abs_eq by lia.
  assert (Hpk : 0 < 2 ^ k) by (apply Z.pow_pos_nonneg; lia).
  destruct (0 <=? e + k) eqn:E.
  - apply Z.leb_le in E.
    assert (Hsplit : 2 ^ k = 2 ^ (e + k) * 2 ^ (- e)).
    { rewrite <- pow2_split by lia. f_equal. lia. }
    assert (Hp : 0 < 2 ^ (e + k)) by (apply Z.pow_pos_nonneg; lia).
    exists (m * 10 * 2 ^ (e + k)). split; [reflexivity|].
    rewrite Hv, Hsplit in Hq1, Hq2.
    split.
    + assert (lo * 2 ^ (- e) <= m * 2 ^ (e + k) * 2 ^ (- e)) by lia.
      assert (lo <= m * 2 ^ (e + k))
        by (apply Z.mul_le_mono_pos_r with (p := 2 ^ (- e)); lia).
      lia.
    + assert (m * 2 ^ (e + k) * 2 ^ (- e) <= hi * 2 ^ (- e)) by lia.
      assert (m * 2 ^ (e + k) <= hi)
        by (apply Z.mul_le_mono_pos_r with (p := 2 ^ (- e)); lia).
      lia.
  - apply Z.leb_gt in E.
    assert (Hsplit : 2 ^ (- e) = 2 ^ (- (e + k)) * 2 ^ k).
    { rewrite <- pow2_split by lia. f_equal. lia. }
    assert (Hp : 0 < 2 ^ (- (e + k))) by (apply Z.pow_pos_nonneg; lia).
    exists (rne_div (m * 10) (2 ^ (- (e + k)))). split; [reflexivity|].
    rewrite Hv, Hsplit in Hq1, Hq2.
    apply rne_div_bounds; [lia | |].
    + assert (lo * 2 ^ (- (e + k)) * 2 ^ k <= m * 2 ^ k) by lia.
      assert (lo * 2 ^ (- (e + k)) <= m)
        by (apply Z.mul_le_mono_pos_r with (p := 2 ^ k); lia).
      lia.
    + assert (m * 2 ^ k <= hi * 2 ^ (- (e + k)) * 2 ^ k) by lia.
      assert (m <= hi * 2 ^ (- (e + k)))
        by (apply Z.mul_le_mono_pos_r with (p := 2 ^ k); lia).
      lia.
Qed.

End RoundingFacts.

(** ** The range of the score *)

Module ScoreRange.
Import Analysis RiskSpec ExactSpec AggregationFacts FloatFacts OrderFacts
  RoundingFacts ScorePresence.

Lemma totals_between (clauses : list json) (lo hi : Z) :
  0 <= lo ->
  Forall (fun c => integer_score c = 0 \/ lo <= integer_score c <= hi) clauses ->
  lo * doubled_weight_total clauses <= doubled_total clauses
  /\ doubled_total clauses <= hi * doubled_weight_total clauses.
Proof.
  intros Hlo Hall. unfold doubled_total, doubled_weight_total.
  induction Hall as [|c rest Hc _ IH]; simpl; [lia|].
  pose proof (doubled_weight_bounds (name_of c)) as Hw.
  destruct Hc as [Hc|Hc].
  - rewrite Hc. simpl. lia.
  - destruct (0 <? integer_score c) eqn:E.
    + nia.
    + apply Z.ltb_ge in E. assert (integer_score c = 0) as -> by lia. lia.
Qed.

Lemma weight_total_positive (clauses : list json) :
  Exists (fun c => 0 < integer_score c) clauses ->
  0 < doubled_weight_total clauses.
Proof.
  intros Hex. unfold doubled_weight_total.
  induction Hex as [c rest Hc|c rest _ IH]; simpl.
  - pose proof (doubled_weight_bounds (name_of c)).
    pose proof (doubled_weight_total_le rest) as [H0 _].
    unfold doubled_weight_total in H0.
    replace (0 <? integer_score c) with true by (symmetry; now apply Z.ltb_lt).
    lia.
  - pose proof (doubled_weight_bounds (name_of c)).
    destruct (0 <? integer_score c); lia.
Qed.

(** The quotient of two half-integers that lies between two integers,
    rounded to one decimal. *)
Lemma rounded_quotient_between (N D lo hi : Z) :
  0 < D -> N < 2 ^ 53 -> D < 2 ^ 53 -> 1 <= lo -> hi < 2 ^ 53 ->
  lo * D <= N -> N <= hi * D ->
  exists t,
    round1 (from_option id FNaN (fdiv (halves N) (halves D))) = tenths t
    /\ 10 * lo <= t <= 10 * hi.
Proof.
  intros HD HN HD53 Hlo Hhi Hlow Hup.
  assert (HNpos : 0 < N) by nia.
  unfold halves.
  destruct (canon_form N (-1)) as [m1 [e1 [H1 [He1 [_ [Hv1 Hm1]]]]]]; [lia | lia |].
  destruct (canon_form D (-1)) as [m2 [e2 [H2 [He2 [_ [Hv2 Hm2]]]]]]; [lia | lia |].
  specialize (Hm1 HNpos). specialize (Hm2 HD).
  rewrite H1, H2.
  replace (e1 - -1) with (e1 + 1) in Hv1 by lia.
  replace (e2 - -1) with (e2 + 1) in Hv2 by lia.
  destruct m2 as [|p2|p2]; try lia.
  destruct m1 as [|p1|p1]; try lia.
  cbn [fdiv fsign from_option id]. change (Z.pos p2 <? 0) with false. cbv iota.
  cbn [round_q].
  replace (e1 - e2) with ((e1 + 1) - (e2 + 1)) by lia.
  destruct (round_pos_between (Z.pos p1) (Z.pos p2) (e1 + 1) (e2 + 1) lo hi)
    as [q [e [Hr [He Hq]]]]; try lia.
  rewrite Hr. now apply round1_between.
Qed.

(** X19.  When the scores are integers and every score above zero lies
    between [lo] and [hi], with at least one such score, the overall score
    is a whole number of tenths between [lo] and [hi]: for scores from 1 to
    10 it is one of 1.0, 1.1, ..., 10.0. *)
Theorem score_within_clause_scores
    (fields : list (string * json)) (clauses : list json) (lo hi : Z) :
  from_option id (JArr []) (dict_get fields "clauses") = JArr clauses ->
  forallb integer_scored clauses = true ->
  doubled_total clauses < 2 ^ 53 ->
  1 <= lo -> hi < 2 ^ 53 ->
  Forall (fun c => integer_score c = 0 \/ lo <= integer_score c <= hi) clauses ->
  Exists (fun c => 0 < integer_score c) clauses ->
  exists t,
    aggregate (JObj fields)
    = Ok (JObj (dict_set fields "overall_risk_score" (JFloat (tenths t))))
    /\ 10 * lo <= t <= 10 * hi.
Proof.
  intros Hget Hall Hbound Hlo Hhi Hrange Hex.
  pose proof (doubled_weight_total_le clauses) as [_ Hle].
  pose proof (weight_total_positive clauses Hex) as Hpos.
  destruct (totals_between clauses lo hi ltac:(lia) Hrange) as [Hlow Hup].
  destruct (rounded_quotient_between (doubled_total clauses)
              (doubled_weight_total clauses) lo hi) as [t [Ht Hb]]; try lia.
  exists t. split; [|exact Hb].
  rewrite (aggregate_ok fields clauses Hget).
  - rewrite (overall_from_totals clauses Hall Hbound).
    rewrite fpos_halves by lia.
    replace (0 <? doubled_weight_total clauses) with true
      by (symmetry; now apply Z.ltb_lt).
    now rewrite Ht.
  - apply forallb_forall. intros c Hc.
    rewrite forallb_forall in Hall. now apply integer_scored_ok, Hall.
Qed.

Lemma score_within_clause_scores_witness :
  exists t,
    aggregate (JObj [("clauses", JArr [clause "Liability Cap" 8;
                                       clause "Force Majeure" 2])])
    = Ok (JObj (dict_set [("clauses", JArr [clause "Liability Cap" 8;
                                            clause "Force Majeure" 2])]
                  "overall_risk_score" (JFloat (tenths t))))
    /\ 10 * 1 <= t <= 10 * 10.
Proof.
  apply (score_within_clause_scores
           [("clauses", JArr [clause "Liability Cap" 8; clause "Force Majeure" 2])]
           [clause "Liability Cap" 8; clause "Force Majeure" 2] 1 10).
  - reflexivity.
  - reflexivity.
  - vm_compute. reflexivity.
  - lia.
  - vm_compute. reflexivity.
  - constructor; [right; vm_compute; split; discriminate|].
    constructor; [right; vm_compute; split; discriminate|].
    constructor.
  - constructor. vm_compute. reflexivity.
Defined.

End ScoreRange.

(** ** Chat sessions *)

Module SessionFacts.
Import App Session Samples.

Section WithSession.

Variable encode : string -> list Z.
Variable rag_invoke : string -> string.

Lemma count_tokens_app (a b : list message) :
  count_tokens encode (a ++ b) = count_tokens encode a + count_tokens encode b.
Proof.
  unfold count_tokens. rewrite !Gate.count_loop_sum.
  unfold content_tokens. rewrite map_app, fold_right_app.
  generalize (map (fun m => Z.of_nat (length (encode (content m)))) b) as lb.
  generalize (map (fun m => Z.of_nat (length (encode (content m)))) a) as la.
  intros la lb. induction la as [|x la IH]; simpl in *; lia.
Qed.

Lemma count_tokens_nonneg (a : list message) : 0 <= count_tokens encode a.
Proof.
  unfold count_tokens. rewrite Gate.count_loop_sum. unfold content_tokens.
  induction a as [|m a IH]; simpl in *; lia.
Qed.

(** One chat input either leaves the history alone and asks nothing, or
    appends one exchange and asks the prompt. *)
Lemma chat_input_step (history : list message) (prompt : string) :
  (messages (chat_input encode rag_invoke history prompt) = history
   /\ asked (chat_input encode rag_invoke history prompt) = []
   /\ MAX_TOKENS < total_used_tokens encode history prompt)
  \/ (messages (chat_input encode rag_invoke history prompt)
      = history ++ exchange rag_invoke prompt
      /\ asked (chat_input encode rag_invoke history prompt) = [prompt]
      /\ total_used_tokens encode history prompt <= MAX_TOKENS).
Proof.
  unfold chat_input.
  destruct (total_used_tokens encode history prompt >? MAX_TOKENS) eqn:E.
  - left. rewrite Z.gtb_ltb in E. apply Z.ltb_lt in E. auto.
  - right. rewrite Z.gtb_ltb in E. apply Z.ltb_ge in E. auto.
Qed.

(** X8.  Over any sequence of chat inputs the history is append-only and
    made of whole exchanges: it is the starting history followed, in order,
    by the user message and the answer of each prompt that was passed to
    the answerer, and those prompts are a subsequence of the prompts
    submitted. *)
Theorem session_history_is_exchanges (history : list message) (prompts : list string) :
  session_messages encode rag_invoke history prompts
  = history ++ flat_map (exchange rag_invoke)
                 (session_asked encode rag_invoke history prompts)
  /\ sublist (session_asked encode rag_invoke history prompts) prompts
  /\ length (session_messages encode rag_invoke history prompts)
     = (length history
        + 2 * length (session_asked encode rag_invoke history prompts))%nat.
Proof.
  revert history. induction prompts as [|p rest IH]; intros history.
  - simpl. rewrite app_nil_r. repeat split; [constructor | lia].
  - cbn [session_messages session_asked].
    destruct (IH (messages (chat_input encode rag_invoke history p)))
      as [H1 [H2 H3]].
    destruct (chat_input_step history p) as [[Hm [Ha _]]|[Hm [Ha _]]];
      rewrite Hm in *; rewrite Ha.
    + simpl. repeat split; [exact H1 | now constructor | exact H3].
    + repeat split.
      * rewrite H1. now rewrite <- app_assoc.
      * simpl. now constructor.
      * rewrite H3, length_app. simpl. lia.
Qed.

Lemma session_tokens_grow (history : list message) (prompts : list string) :
  count_tokens encode history
  <= count_tokens encode (session_messages encode rag_invoke history prompts).
Proof.
  destruct (session_history_is_exchanges history prompts) as [-> _].
  rewrite count_tokens_app.
  pose proof (count_tokens_nonneg
                (flat_map (exchange rag_invoke)
                   (session_asked encode rag_invoke history prompts))).
  lia.
Qed.

(** X9.  A prompt that the gate blocks stays blocked for the rest of the
    session, whatever is asked in between: the token count of the history
    never goes down. *)
Theorem blocked_prompt_stays_blocked
    (history : list message) (prompt : string) (prompts : list string) :
  blocked history (chat_input encode rag_invoke history prompt) ->
  let later := session_messages encode rag_invoke history prompts in
  blocked later (chat_input encode rag_invoke later prompt)
  /\ count_tokens encode history <= count_tokens encode later.
Proof.
  intros Hb later. split; [|apply session_tokens_grow].
  apply Gate.chat_input_blocked.
  assert (Hused : MAX_TOKENS < total_used_tokens encode history prompt).
  { destruct (Z_lt_le_dec MAX_TOKENS (total_used_tokens encode history prompt))
      as [H|H]; [exact H | exfalso].
    destruct (Gate.chat_input_permitted encode rag_invoke history prompt H)
      as [_ [Hnb _]]. contradiction. }
  unfold total_used_tokens in *. rewrite count_tokens_app in *.
  pose proof (session_tokens_grow history prompts). unfold later. lia.
Qed.

(** X10.  Once the history alone, with the buffer, is above the maximum,
    the session is stuck: every further prompt is blocked, nothing is asked
    and the history stays as it is. *)
Theorem over_budget_history_is_stuck (history : list message) (prompts : list string) :
  MAX_TOKENS < count_tokens encode history + BUFFER_TOKENS ->
  session_messages encode rag_invoke history prompts = history
  /\ session_asked encode rag_invoke history prompts = []
  /\ forall prompt, blocked history (chat_input encode rag_invoke history prompt).
Proof.
  intros Hover.
  assert (Hall : forall prompt,
             MAX_TOKENS < total_used_tokens encode history prompt).
  { intros prompt. unfold total_used_tokens. rewrite count_tokens_app.
    pose proof (count_tokens_nonneg [Message "user" prompt]). lia. }
  split; [|split].
  - induction prompts as [|p rest IH]; [reflexivity|].
    cbn [session_messages].
    destruct (chat_input_step history p) as [[Hm _]|[_ [_ Hle]]].
    + now rewrite Hm.
    + specialize (Hall p). lia.
  - induction prompts as [|p rest IH]; [reflexivity|].
    cbn [session_asked].
    destruct (chat_input_step history p) as [[Hm [Ha _]]|[_ [_ Hle]]].
    + now rewrite Hm, Ha.
    + specialize (Hall p). lia.
  - intros prompt. apply Gate.chat_input_blocked, Hall.
Qed.


End WithSession.

Lemma blocked_prompt_stays_blocked_witness :
  blocked
    (session_messages (flat_encoder 3000) (fun _ => "answer")
       [Message "user" "a"; Message "assistant" "b"] ["again"])
    (chat_input (flat_encoder 3000) (fun _ => "answer")
       (session_messages (flat_encoder 3000) (fun _ => "answer")
          [Message "user" "a"; Message "assistant" "b"] ["again"])
       "question").
Proof.
  refine (proj1 (blocked_prompt_stays_blocked (flat_encoder 3000)
                   (fun _ => "answer")
                   [Message "user" "a"; Message "assistant" "b"]
                   "question" ["again"] _)).
  apply Gate.chat_input_blocked. vm_compute. reflexivity.
Defined.

Lemma over_budget_history_is_stuck_witness :
  session_messages (flat_encoder 4000) (fun _ => "answer")
    [Message "user" "a"; Message "assistant" "b"] ["one"; "two"]
  = [Message "user" "a"; Message "assistant" "b"].
Proof.
  refine (proj1 (over_budget_history_is_stuck (flat_encoder 4000)
                   (fun _ => "answer")
                   [Message "user" "a"; Message "assistant" "b"]
                   ["one"; "two"] _)).
  vm_compute. reflexivity.
Defined.


End SessionFacts.

(** ** Uploads and extraction *)

Module UploadFacts.
Import FileHandler Upload Rag Analysis StrFacts Notions Fences.











Section WithBatch.

Variable V : Type.
Variable tmp_stem : uploaded_file -> string.
Variable create_vector_store : list document -> V.
Variable analyze_contract : string -> outcome.


Lemma source_of_built (text source : string) :
  source_of (Document text {["source" := MStr source]}) = source.
Proof. unfold source_of. simpl. now rewrite lookup_singleton_eq. Qed.

Lemma extract_loop_spec (files : list uploaded_file)
    (all_docs : list document) (warned : list string) :
  extract_loop tmp_stem files all_docs warned
  = (all_docs ++
       map (fun f => Document (extract_text (tmp_path tmp_stem f))
                       {["source" := MStr (upload_name f)]})
         (filter (fun f => extract_text (tmp_path tmp_stem f) <> "") files),
     warned ++
       map upload_name
         (filter (fun f => extract_text (tmp_path tmp_stem f) = "") files)).
Proof.
  revert all_docs warned. induction files as [|f rest IH]; intros all_docs warned.
  - simpl. now rewrite !app_nil_r.
  - cbn [extract_loop]. rewrite !filter_cons.
    destruct (String.eqb (extract_text (tmp_path tmp_stem f)) "") eqn:E.
    + apply String.eqb_eq in E. simpl negb. cbv iota. rewrite IH.
      rewrite decide_False by (intros H; apply H; exact E).
      rewrite decide_True by exact E.
      simpl. now rewrite <- app_assoc.
    + apply String.eqb_neq in E. simpl negb. cbv iota. rewrite IH.
      rewrite decide_True by exact E.
      rewrite decide_False by exact E.
      simpl. now rewrite <- app_assoc.
Qed.

Lemma analysis_loop_ok (docs : list document) (acc rs : list (string * json)) :
  analysis_loop analyze_contract docs acc = Ok rs ->
  exists added,
    rs = acc ++ added
    /\ Forall2 (fun doc r =>
                  fst r = source_of doc
                  /\ analyze_contract (page_content doc) = Returned (snd r))
         docs added.
Proof.
  revert acc. induction docs as [|d rest IH]; intros acc H.
  - inversion H. exists []. rewrite app_nil_r. split; [reflexivity | constructor].
  - cbn [analysis_loop] in H.
    destruct (analyze_contract (page_content d)) as [r|e] eqn:E; [|discriminate].
    destruct (IH _ H) as [added [-> Hall]].
    exists ((source_of d, r) :: added). split.
    + now rewrite <- app_assoc.
    + constructor; [split; [reflexivity | exact E] | exact Hall].
Qed.

Lemma analysis_loop_raises (docs : list document) (acc : list (string * json)) :
  Exists (fun doc => exists e, analyze_contract (page_content doc) = Raised e) docs ->
  exists e, analysis_loop analyze_contract docs acc = Err e.
Proof.
  intros H. revert acc. induction H as [d rest [e He]|d rest _ IH]; intros acc.
  - cbn [analysis_loop]. rewrite He. eauto.
  - cbn [analysis_loop].
    destruct (analyze_contract (page_content d)); [apply IH | eauto].
Qed.

(** X13.  Every uploaded file is either warned about or kept, by whether
    its extracted text is empty; when all analyses return, the stored
    results are one per kept file, in upload order, each labelled with the
    file's name and holding the analysis of its text. *)
Theorem upload_results_follow_files (files : list uploaded_file) :
  let kept := filter (fun f => extract_text (tmp_path tmp_stem f) <> "") files in
  let run := upload V tmp_stem create_vector_store analyze_contract files in
  warnings run
  = map upload_name
      (filter (fun f => extract_text (tmp_path tmp_stem f) = "") files)
  /\ (kept = [] ->
      ending run = BatchNoText
      /\ vector_store run = None /\ analysis_results run = None)
  /\ forall results,
       analysis_results run = Some results ->
       ending run = BatchSuccess
       /\ Forall2 (fun f r =>
                     fst r = upload_name f
                     /\ analyze_contract (extract_text (tmp_path tmp_stem f))
                        = Returned (snd r))
            kept results.
Proof.
  intros kept run. subst run. unfold upload.
  rewrite extract_loop_spec. cbn [app]. fold kept.
  destruct kept as [|k kept'] eqn:Ek.
  - simpl. repeat split; try reflexivity; discriminate.
  - cbn [map].
    set (docs := Document (extract_text (tmp_path tmp_stem k))
                   {["source" := MStr (upload_name k)]}
                 :: map (fun f => Document (extract_text (tmp_path tmp_stem f))
                                    {["source" := MStr (upload_name f)]}) kept').
    destruct (analysis_loop analyze_contract docs []) as [rs|e] eqn:E.
    + simpl. split; [reflexivity|]. split; [discriminate|].
      intros results H. inversion H. subst results. split; [reflexivity|].
      destruct (analysis_loop_ok _ _ _ E) as [added [Hrs Hall]].
      simpl in Hrs. subst rs.
      change docs with (map (fun f => Document (extract_text (tmp_path tmp_stem f))
                                        {["source" := MStr (upload_name f)]})
                          (k :: kept')) in Hall.
      clear -Hall. revert added Hall.
      induction (k :: kept') as [|f fs IH]; intros added Hall.
      * inversion Hall. constructor.
      * cbn [map] in Hall. inversion Hall as [|d r ds rs' [H1 H2] Hrest]. subst.
        constructor.
        -- rewrite source_of_built in H1. simpl in H2. auto.
        -- now apply IH.
    + simpl. split; [reflexivity|]. split; discriminate.
Qed.

(** X14.  When the analysis of one kept file raises, the batch ends
    there: no analysis result is stored, not even those of the files
    analysed before it, while the vector store built before the analyses
    stays in the session. *)
Theorem raising_analysis_discards_batch (files : list uploaded_file) :
  Exists (fun f => extract_text (tmp_path tmp_stem f) <> ""
                   /\ exists e, analyze_contract (extract_text (tmp_path tmp_stem f))
                                = Raised e) files ->
  let run := upload V tmp_stem create_vector_store analyze_contract files in
  analysis_results run = None
  /\ (exists e, ending run = BatchRaised e)
  /\ exists store, vector_store run = Some store.
Proof.
  intros Hex run. subst run. unfold upload.
  rewrite extract_loop_spec. cbn [app].
  set (kept := filter (fun f => extract_text (tmp_path tmp_stem f) <> "") files).
  assert (Hdocs : Exists (fun doc => exists e,
                              analyze_contract (page_content doc) = Raised e)
                    (map (fun f => Document (extract_text (tmp_path tmp_stem f))
                                     {["source" := MStr (upload_name f)]}) kept)).
  { unfold kept. clear -Hex. induction Hex as [f rest [Hne He]|f rest _ IH].
    - rewrite filter_cons, decide_True by exact Hne. now constructor.
    - rewrite filter_cons. destruct (decide _); [|exact IH].
      cbn [map]. now constructor 2. }
  destruct (map _ kept) as [|d ds] eqn:Em; [inversion Hdocs|].
  destruct (analysis_loop_raises _ [] Hdocs) as [e He]. rewrite He.
  simpl. eauto.
Qed.

End WithBatch.


Lemma upload_results_follow_files_witness :
  warnings (upload unit (fun _ => "tmpab12cd34") (fun _ => tt)
              (fun _ => Returned parse_error_result) [sample_upload])
  = [].
Proof.
  rewrite (proj1 (upload_results_follow_files unit (fun _ => "tmpab12cd34")
                    (fun _ => tt) (fun _ => Returned parse_error_result)
                    [sample_upload])).
  reflexivity.
Defined.

Lemma raising_analysis_discards_batch_witness :
  analysis_results (upload unit (fun _ => "tmpab12cd34") (fun _ => tt)
                      (fun _ => Raised CompletionError) [sample_upload])
  = None.
Proof.
  refine (proj1 (raising_analysis_discards_batch unit (fun _ => "tmpab12cd34")
                   (fun _ => tt) (fun _ => Raised CompletionError)
                   [sample_upload] _)).
  constructor. split; [vm_compute; discriminate | eexists; reflexivity].
Defined.

End UploadFacts.

(** ** Text extraction *)

Module ExtractionFacts.
Import FileHandler StrFacts Notions Fences.

Lemma append_nil_r (t : string) : t +++ "" = t.
Proof. induction t; simpl; congruence. Qed.

Lemma page_condition (t : string) :
  negb (String.eqb t "") && nonblank t = nonblank t.
Proof. destruct t; reflexivity. Qed.

(** X15.  A page whose text cannot be read ends the PDF extraction: the
    text of the pages before it is returned, and no page after it is
    read. *)
Theorem pdf_keeps_pages_before_failure (before after : list page_read) :
  _extract_pdf (PdfPages (before ++ PageRaises :: after))
  = _extract_pdf (PdfPages before).
Proof.
  unfold _extract_pdf. generalize "" as text.
  induction before as [|[[t|]|] rest IH]; intros text; cbn [app pdf_loop].
  - reflexivity.
  - destruct (negb (String.eqb t "") && nonblank t); apply IH.
  - apply IH.
  - reflexivity.
Qed.

Lemma join_cons (x : string) (l : list string) :
  join "" (x :: l) = x +++ join "" l.
Proof. destruct l; simpl; [now rewrite append_nil_r | reflexivity]. Qed.

Lemma pdf_loop_texts (texts : list (option string)) (text : string) :
  pdf_loop (map PageText texts) text
  = text +++ join "" (map (fun t => strip t +++ nl)
                        (List.filter nonblank (omap id texts))).
Proof.
  revert text. induction texts as [|[t|] rest IH]; intros text.
  - simpl. now rewrite append_nil_r.
  - cbn [map pdf_loop omap list_omap id List.filter]. rewrite page_condition.
    destruct (nonblank t) eqn:E.
    + rewrite IH. cbn [map]. rewrite join_cons. now rewrite !append_assoc.
    + apply IH.
  - cbn [map pdf_loop omap list_omap]. apply IH.
Qed.

Lemma join_nonempty (sep x : string) (l : list string) :
  x <> "" -> join sep (x :: l) <> "".
Proof.
  intros Hx. destruct l; simpl; destruct x; try contradiction; discriminate.
Qed.

Lemma nonblank_nonempty (t : string) : nonblank t = true -> t <> "".
Proof. intros H ->. discriminate. Qed.

Lemma filter_nil_iff (l : list string) :
  List.filter nonblank l = [] <-> Forall (fun t => nonblank t = false) l.
Proof.
  induction l as [|t l IH]; [split; constructor|].
  simpl. destruct (nonblank t) eqn:E.
  - split; [discriminate|]. intros H. inversion H. congruence.
  - rewrite IH. split.
    + intros H. now constructor.
    + intros H. now inversion H.
Qed.

(** X16.  Extraction yields the empty text, for which the upload is
    skipped with a warning, exactly when the file has no page, or no
    paragraph, with anything but white space; otherwise a PDF gives the
    stripped texts of its non-blank pages, each followed by a line break,
    and a DOCX gives its non-blank paragraphs, unstripped, joined by line
    breaks. *)
Theorem extraction_is_empty_iff_blank (page_texts : list (option string))
    (paragraphs : list string) :
  _extract_pdf (PdfPages (map PageText page_texts))
  = join "" (map (fun t => strip t +++ nl)
               (List.filter nonblank (omap id page_texts)))
  /\ (_extract_pdf (PdfPages (map PageText page_texts)) = ""
      <-> Forall (fun t => nonblank t = false) (omap id page_texts))
  /\ (_extract_docx (DocxParagraphs paragraphs) = ""
      <-> Forall (fun t => nonblank t = false) paragraphs).
Proof.
  assert (Hpdf : _extract_pdf (PdfPages (map PageText page_texts))
                 = join "" (map (fun t => strip t +++ nl)
                              (List.filter nonblank (omap id page_texts)))).
  { unfold _extract_pdf. now rewrite pdf_loop_texts. }
  split; [exact Hpdf|]. split.
  - rewrite Hpdf, <- filter_nil_iff.
    destruct (List.filter nonblank (omap id page_texts)) as [|t l];
      [split; reflexivity|].
    split; [|discriminate]. intros H. exfalso. cbn [map] in H.
    apply (join_nonempty "" (strip t +++ nl) _) in H; [exact H|].
    destruct (strip t); discriminate.
  - unfold _extract_docx. rewrite <- filter_nil_iff.
    destruct (List.filter nonblank paragraphs) as [|t l] eqn:E;
      [split; reflexivity|].
    split; [|discriminate]. intros H. exfalso.
    apply (join_nonempty nl t l) in H; [exact H|].
    apply nonblank_nonempty.
    assert (Ht : In t (List.filter nonblank paragraphs)) by (rewrite E; now left).
    now apply filter_In in Ht.
Qed.

End ExtractionFacts.

(** ** Chunk lists and prompts *)

Module ChunkFacts.
Import Rag VectorStore ChunkSpec StrFacts Fences.

Section WithSplitter.

Variable split_text : Z -> Z -> string -> list string.

(** X17.  Chunking a list of documents is chunking its parts: the output
    for [docs1 ++ docs2] is the output for [docs1] followed by the output
    for [docs2], and its length is the number of chunks that the splitter
    gives for all the documents together. *)
Theorem chunk_documents_app (docs1 docs2 : list document) (chunk_size chunk_overlap : Z) :
  _chunk_documents split_text (docs1 ++ docs2) chunk_size chunk_overlap
  = _chunk_documents split_text docs1 chunk_size chunk_overlap
    ++ _chunk_documents split_text docs2 chunk_size chunk_overlap
  /\ length (_chunk_documents split_text docs1 chunk_size chunk_overlap)
     = list_sum (map (fun doc => length (split_text chunk_size chunk_overlap
                                           (page_content doc))) docs1)
  /\ map page_content (_chunk_documents split_text docs1 chunk_size chunk_overlap)
     = concat (map (fun doc => split_text chunk_size chunk_overlap
                                 (page_content doc)) docs1).
Proof.
  unfold _chunk_documents. rewrite !Chunks.docs_loop_appends. cbn [app].
  split; [|split].
  - now rewrite map_app, concat_app.
  - induction docs1 as [|d rest IH]; [reflexivity|].
    cbn [map concat list_sum]. rewrite length_app, Chunks.chunks_from_length.
    simpl. now rewrite IH.
  - induction docs1 as [|d rest IH]; [reflexivity|].
    cbn [map concat]. rewrite map_app, IH. f_equal.
    generalize (Z.of_nat (length (split_text chunk_size chunk_overlap
                                     (page_content d)))) as total.
    generalize 0 as i.
    induction (split_text chunk_size chunk_overlap (page_content d)) as [|c cs IHc];
      intros i total; simpl; [reflexivity|]. now rewrite IHc.
Qed.

End WithSplitter.

Lemma find_aux_middle (a x b : string) (i : Z) :
  0 <= i -> find_aux x (a +++ x +++ b) i <> -1.
Proof.
  revert i. induction a as [|c a IH]; intros i Hi.
  - change ("" +++ x +++ b) with (x +++ b).
    destruct (x +++ b) eqn:E.
    + simpl. destruct x; [simpl; lia | discriminate].
    + cbn [find_aux]. rewrite <- E, startswith_self_app. lia.
  - change (String c a +++ x +++ b) with (String c (a +++ x +++ b)).
    cbn [find_aux].
    destruct (startswith x (String c (a +++ x +++ b))); [lia|].
    apply IH. lia.
Qed.

Lemma str_in_middle (a x b : string) : str_in x (a +++ x +++ b) = true.
Proof.
  unfold str_in, find. apply negb_true_iff, Z.eqb_neq.
  apply find_aux_middle. lia.
Qed.

Lemma join_holds_member (sep x : string) (l : list string) :
  In x l -> exists a b, join sep l = a +++ x +++ b.
Proof.
  induction l as [|y l IH]; [contradiction|].
  intros [->|Hin].
  - destruct l as [|z l].
    + exists "", "". simpl. symmetry. apply ExtractionFacts.append_nil_r.
    + exists "", (sep +++ join sep (z :: l)). reflexivity.
  - destruct (IH Hin) as [a [b Hab]].
    destruct l as [|z l]; [contradiction|].
    exists (y +++ sep +++ a), b.
    change (join sep (y :: z :: l)) with (y +++ sep +++ join sep (z :: l)).
    rewrite Hab. now rewrite !append_assoc.
Qed.

(** X18.  The prompt sent to the model holds the text of every retrieved
    chunk and the question itself, and what [invoke] returns is the model's
    answer to that prompt. *)
Theorem prompt_holds_chunks_and_question
    (retriever_invoke : string -> list document)
    (llm_invoke : string -> string) (question : string) :
  let prompt :=
    rag_prompt (join nl (map page_content (retriever_invoke question))) question in
  invoke retriever_invoke llm_invoke question = llm_invoke prompt
  /\ str_in question prompt = true
  /\ forall doc, In doc (retriever_invoke question) ->
                 str_in (page_content doc) prompt = true.
Proof.
  intros prompt. subst prompt. split; [reflexivity|]. split.
  - unfold rag_prompt.
    set (ctx := join nl (map page_content (retriever_invoke question))).
    replace ("Based on this contract:" +++ nl +++ ctx +++ nl +++ nl
             +++ "Question: " +++ question +++ nl +++ nl +++ "Answer:")
      with (("Based on this contract:" +++ nl +++ ctx +++ nl +++ nl
             +++ "Question: ") +++ question +++ nl +++ nl +++ "Answer:")
      by (now rewrite !append_assoc).
    apply str_in_middle.
  - intros doc Hin.
    destruct (join_holds_member nl (page_content doc)
                (map page_content (retriever_invoke question)))
      as [a [b Hab]]; [now apply in_map|].
    unfold rag_prompt. rewrite Hab.
    replace ("Based on this contract:" +++ nl +++ (a +++ page_content doc +++ b)
             +++ nl +++ nl +++ "Question: " +++ question +++ nl +++ nl +++ "Answer:")
      with (("Based on this contract:" +++ nl +++ a) +++ page_content doc
            +++ (b +++ nl +++ nl +++ "Question: " +++ question +++ nl +++ nl
                 +++ "Answer:"))
      by (now rewrite !append_assoc).
    apply str_in_middle.
Qed.

End ChunkFacts.

(** ** The displayed metric *)

Module DisplayFacts.
Import Upload Analysis AggregationFacts Notions.

Lemma colour_check :
  forallb (fun n => let t := Z.of_nat n in
             Bool.eqb (truthy (JFloat (tenths t))) (negb (t =? 0))
             && colour_eqb (risk_color (tenths t)) (colour_of_tenths t))
    (seq 0 101) = true.
Proof. vm_compute. reflexivity. Qed.

(** X20.  For every score from 0.0 to 10.0 in tenths, the page shows the
    metric unless the score is 0.0, red from 7.0 on, yellow from 4.0 on and
    green below: the float comparisons agree with the decimal thresholds.
    The two canned failure results show no metric. *)
Theorem metric_follows_tenths (fields : list (string * json)) (t : Z) :
  0 <= t <= 100 ->
  metric (JObj (dict_set fields "overall_risk_score" (JFloat (tenths t))))
  = (if t =? 0 then None else Some (tenths t, colour_of_tenths t))
  /\ metric empty_response_result = None
  /\ metric parse_error_result = None.
Proof.
  intros Ht. split; [|split; reflexivity].
  unfold metric. rewrite dict_get_set_same.
  pose proof colour_check as Hall. rewrite forallb_forall in Hall.
  specialize (Hall (Z.to_nat t)). rewrite Z2Nat.id in Hall by lia.
  cbv zeta in Hall.
  assert (Hin : In (Z.to_nat t) (seq 0 101)) by (apply in_seq; lia).
  apply Hall in Hin. apply andb_true_iff in Hin as [H1 H2].
  apply Bool.eqb_prop in H1. rewrite H1.
  destruct (t =? 0); [reflexivity|]. simpl negb. cbv iota.
  do 2 f_equal.
  destruct (risk_color (tenths t)), (colour_of_tenths t);
    try reflexivity; discriminate.
Qed.

Lemma metric_follows_tenths_witness :
  metric (JObj (dict_set [] "overall_risk_score" (JFloat (tenths 65))))
  = Some (tenths 65, Yellow).
Proof.
  apply (proj1 (metric_follows_tenths [] 65 ltac:(lia))).
Defined.

End DisplayFacts.
